(** * Terminal portfolio: the command interpreter and its history store

    A shallow embedding of [CommandSystem] from [assets/js/script.js]
    (with the constants [CONFIG], [FILE_CONTENT], [FILE_LIST], [LINKS] and
    [TerminalUI.closeTerminal], which its handlers use), and the properties
    of [execute], the [cat] handler and the history operations.

    JavaScript strings are sequences of UTF-16 code units; values are an
    inductive type covering what the code can produce; host calls (DOM,
    [window], [localStorage], [console]) are logged in a trace and may throw,
    as decided by a [Host]; [String.prototype.toLowerCase], [JSON.parse] and
    [JSON.stringify] are taken from a [Builtins] structure. *)

From Stdlib Require Import Ascii String.
From Stdlib Require Import List ZArith NArith Bool Lia.
Import ListNotations.

Set Implicit Arguments.

(* ================================================================== *)
(** * Strings *)
(* ================================================================== *)

Module JsString.

(** A JavaScript string: its UTF-16 code units. *)
Definition jsstring := list N.

(** [a === b] on strings *)
Fixpoint eqb (a b : jsstring) : bool :=
  match a, b with
  | [], [] => true
  | x :: a', y :: b' => (x =? y)%N && eqb a' b'
  | _, _ => false
  end.

(** ** Literals

    The source file is UTF-8; [lit] decodes the bytes of a Rocq string
    literal into the code units the JavaScript literal denotes. *)

Definition units_of_code_point (cp : N) : jsstring :=
  if (cp <? 65536)%N then [cp]
  else [(55296 + (cp - 65536) / 1024)%N; (56320 + (cp - 65536) mod 1024)%N].

Fixpoint utf8_decode (acc : N) (pending : nat) (bytes : list N) : jsstring :=
  match bytes with
  | [] => []
  | b :: rest =>
      match pending with
      | O =>
          if (b <? 128)%N then b :: utf8_decode 0%N 0 rest
          else if (b <? 224)%N then utf8_decode (b mod 32)%N 1 rest
          else if (b <? 240)%N then utf8_decode (b mod 16)%N 2 rest
          else utf8_decode (b mod 8)%N 3 rest
      | S O => units_of_code_point (acc * 64 + b mod 64)%N ++ utf8_decode 0%N 0 rest
      | S k => utf8_decode (acc * 64 + b mod 64)%N k rest
      end
  end.

Definition lit (s : string) : jsstring :=
  utf8_decode 0%N 0 (map N_of_ascii (list_ascii_of_string s)).

(** ** White space

    [String.prototype.trim] and the regular expression class [\s] use the
    same set: ECMAScript's WhiteSpace and LineTerminator code points. *)

Definition isWhiteSpace (c : N) : bool :=
  ((9 <=? c) && (c <=? 13)          (* TAB, LF, VT, FF, CR *)
   || (c =? 32) || (c =? 160)        (* SP, NBSP *)
   || (c =? 5760)                    (* U+1680 *)
   || (8192 <=? c) && (c <=? 8202)   (* U+2000 .. U+200A *)
   || (c =? 8232) || (c =? 8233)     (* LS, PS *)
   || (c =? 8239) || (c =? 8287)     (* U+202F, U+205F *)
   || (c =? 12288) || (c =? 65279)   (* U+3000, U+FEFF *))%N.

Fixpoint dropWhile (p : N -> bool) (s : jsstring) : jsstring :=
  match s with
  | [] => []
  | c :: s' => if p c then dropWhile p s' else s
  end.

Definition trimStart (s : jsstring) : jsstring := dropWhile isWhiteSpace s.
Definition trimEnd (s : jsstring) : jsstring := rev (dropWhile isWhiteSpace (rev s)).

(** [s.trim()] *)
Definition trim (s : jsstring) : jsstring := trimEnd (trimStart s).

(** [s.split(/\s+/)]: the pieces between the maximal runs of white space;
    a leading or trailing run leaves an empty piece at that end, and the
    empty string splits into one empty piece.  [cur] holds the current
    piece reversed, [in_sep] says the previous unit was white space. *)
Fixpoint split_go (in_sep : bool) (cur : jsstring) (s : jsstring) : list jsstring :=
  match s with
  | [] => [rev cur]
  | c :: s' =>
      if isWhiteSpace c
      then if in_sep then split_go true [] s' else rev cur :: split_go true [] s'
      else split_go false (c :: cur) s'
  end.

Definition split_ws (s : jsstring) : list jsstring := split_go false [] s.

(** [a.join(sep)] *)
Fixpoint join (sep : jsstring) (a : list jsstring) : jsstring :=
  match a with
  | [] => []
  | [x] => x
  | x :: rest => x ++ sep ++ join sep rest
  end.

(** [s.padEnd(n)]: pads with spaces up to [n] code units. *)
Definition padEnd (n : nat) (s : jsstring) : jsstring :=
  s ++ repeat 32%N (n - length s).

(** [s.endsWith(t)] *)
Fixpoint startsWith (t s : jsstring) : bool :=
  match t, s with
  | [], _ => true
  | a :: t', b :: s' => (a =? b)%N && startsWith t' s'
  | _ :: _, [] => false
  end.

Definition endsWith (t s : jsstring) : bool := startsWith (rev t) (rev s).

(** [a.slice(-n)] on an array or a string: the last [n] elements. *)
Definition slice_last {A} (n : nat) (l : list A) : list A := skipn (length l - n) l.

(** Basic Latin case mapping, the part of [toLowerCase] that does not
    depend on the Unicode tables. *)
Definition isAscii (c : N) : bool := (c <? 128)%N.
Definition asciiLower (c : N) : N :=
  if ((65 <=? c) && (c <=? 90))%N then (c + 32)%N else c.

End JsString.
Export JsString.

(* ================================================================== *)
(** * Values, errors and the host *)
(* ================================================================== *)

(** The keys of [CommandSystem.commands], in the order of the object
    literal ([quit] is the key [':q']). *)
Inductive command :=
| help | clear | whoami | ls | cat | contact | github | linkedin | email | quit.

(** The function-valued properties every plain object inherits from
    [Object.prototype], and the accessor pair behind [__proto__]. *)
Inductive builtin :=
| Object_constructor
| Object_hasOwnProperty
| Object_isPrototypeOf
| Object_propertyIsEnumerable
| Object_toString
| Object_toLocaleString
| Object_valueOf
| Object_defineGetter
| Object_defineSetter
| Object_lookupGetter
| Object_lookupSetter
| Object_proto_get
| Object_proto_set.

Inductive function :=
| Handler (c : command)
| Builtin (b : builtin).

(** The values the modelled code handles.  [VObj] is a plain object with
    its own properties in insertion order (an object literal, or an object
    read by [JSON.parse]); [VNum] keeps a JSON number as its lexeme, with
    whether its value is non-zero: no arithmetic is done on it. *)
#[local] Set Warnings "-register-all".
Inductive jsval :=
| VUndefined
| VNull
| VBool (b : bool)
| VNum (nonzero : bool) (lexeme : jsstring)
| VStr (s : jsstring)
| VArr (elements : list jsval)
| VObj (properties : list (jsstring * jsval))
| VStringObject (s : jsstring)
| VFun (f : function)
| VObjectPrototype.

(** ToBoolean *)
Definition truthy (v : jsval) : bool :=
  match v with
  | VUndefined | VNull => false
  | VBool b => b
  | VNum nonzero _ => nonzero
  | VStr s => match s with [] => false | _ => true end
  | _ => true
  end.

(** The object literal [{ type: ..., content: ... }] the handlers return. *)
Definition CommandResult (type : jsstring) (content : jsval) : jsval :=
  VObj [(lit "type", VStr type); (lit "content", content)].

(** A thrown [Error] object; [message] is what [error.message] reads.
    What the host and the engine throw are such objects ([DOMException],
    [TypeError], [SyntaxError], ...). *)
Record Error := { name : jsstring; message : jsstring }.

Inductive outcome (A : Type) :=
| Ret (a : A)
| Throw (e : Error).
Arguments Ret {A} a.
Arguments Throw {A} e.

(** Calls into the host environment, as logged in the trace. *)
Inductive hostcall :=
| QuerySelector (selector : jsstring)
| SetInnerHTML (selector html : jsstring)
| SetStyle (selector property value : jsstring)
| SetTimeout (delay : Z)
| WindowOpen (url target features : jsstring)
| SetLocationHref (url : jsstring)
| GetItem (key : jsstring)
| SetItem (key value : jsstring)
| ConsoleError (text : jsstring) (error : Error).

(** What the host decides: whether a call throws, whether a selector
    matches an element, and the message text of the errors the engine
    itself raises ([TypeError], [SyntaxError]), by the expression at
    fault. *)
Record Host := {
  fault : hostcall -> option Error;
  present : jsstring -> bool;
  engineMessage : jsstring -> jsstring
}.

(** The language built-ins that are not modelled by a definition of ours:
    Unicode lower-casing (fixed on Basic Latin, where it does not depend on
    the Unicode tables) and the JSON codec. *)
Class Builtins := {
  toLowerCase : jsstring -> jsstring;
  toLowerCase_ascii :
    forall s, forallb isAscii s = true -> toLowerCase s = map asciiLower s;
  (** [None]: a [SyntaxError] *)
  JSON_parse : jsstring -> option jsval;
  JSON_stringify : jsval -> jsstring
}.

(** ** The state

    [history] is an array after the code's own writes; after
    [loadHistory] it is whatever [JSON.parse(saved).slice(-50)] gave, an
    array or a string. *)
Inductive hist :=
| HArray (entries : list jsval)
| HString (s : jsstring).

Record State := {
  history : hist;
  historyIndex : Z;
  (** the [localStorage] slot under [CONFIG.storageKey] *)
  localStorage : option jsstring;
  (** host calls made so far, oldest first *)
  trace : list hostcall
}.

(** [this.history.length] *)
Definition hist_length (h : hist) : Z :=
  match h with
  | HArray l => Z.of_nat (length l)
  | HString s => Z.of_nat (length s)
  end.

(** [this.history[i]]: [undefined] out of range; a string indexes to the
    one-unit string at [i]. *)
Definition hist_get (h : hist) (i : Z) : jsval :=
  if (i <? 0)%Z then VUndefined else
  match h with
  | HArray l => nth (Z.to_nat i) l VUndefined
  | HString s => match nth_error s (Z.to_nat i) with
                 | Some c => VStr [c]
                 | None => VUndefined
                 end
  end.

Definition hist_value (h : hist) : jsval :=
  match h with
  | HArray l => VArr l
  | HString s => VStr s
  end.

(** ** The monad: state, trace and exceptions *)

Definition M (A : Type) := State -> outcome A * State.

Definition ret {A} (a : A) : M A := fun s => (Ret a, s).
Definition throw {A} (e : Error) : M A := fun s => (Throw e, s).
Definition bind {A B} (m : M A) (f : A -> M B) : M B :=
  fun s => match m s with
           | (Ret a, s') => f a s'
           | (Throw e, s') => (Throw e, s')
           end.
(** [try { body } catch (error) { handler }] *)
Definition try_catch {A} (body : M A) (handler : Error -> M A) : M A :=
  fun s => match body s with
           | (Ret a, s') => (Ret a, s')
           | (Throw e, s') => handler e s'
           end.

Declare Scope js_scope.
Delimit Scope js_scope with js.
Notation "x <- m ;; k" := (bind m (fun x => k))
  (at level 61, m at next level, right associativity) : js_scope.
Notation "m ;; k" := (bind m (fun _ => k))
  (at level 61, right associativity) : js_scope.
Open Scope js_scope.

Definition get_state : M State := fun s => (Ret s, s).
Definition log (c : hostcall) : M unit :=
  fun s => (Ret tt, {| history := history s; historyIndex := historyIndex s;
                       localStorage := localStorage s; trace := trace s ++ [c] |}).
Definition set_history (h : hist) : M unit :=
  fun s => (Ret tt, {| history := h; historyIndex := historyIndex s;
                       localStorage := localStorage s; trace := trace s |}).
Definition set_historyIndex (i : Z) : M unit :=
  fun s => (Ret tt, {| history := history s; historyIndex := i;
                       localStorage := localStorage s; trace := trace s |}).
Definition set_localStorage (v : option jsstring) : M unit :=
  fun s => (Ret tt, {| history := history s; historyIndex := historyIndex s;
                       localStorage := v; trace := trace s |}).

(* ================================================================== *)
(** * Constants *)
(* ================================================================== *)

Definition LF : jsstring := [10%N].

Module CONFIG.
Definition maxHistoryItems : nat := 50.
Definition storageKey : jsstring := lit "terminal-history".
Definition terminalCloseDelay : Z := 300.
End CONFIG.

Module SELECTORS.
Definition commandHistory : jsstring := lit "#commandHistory".
Definition terminalContainer : jsstring := lit ".terminal-container".
End SELECTORS.

Definition about_txt : jsstring :=
  lit "NAME:        Subash Aryal
ROLE:        DevOps Engineer
LOCATION:    Nepal
EMAIL:       aryalsubash07@gmail.com

DESCRIPTION:
Dedicated DevOps engineer with strong hands-on skills in automation,
cloud, and container orchestration. Passionate about designing stable,
scalable systems and simplifying complex infrastructure.".

Definition experience_log : jsstring :=
  lit "[2024-Present] DevOps Engineer
Infrastructure & Automation

Responsibilities:
  ‚Ä¢ Design and implement scalable containerized infrastructure
  ‚Ä¢ Automate CI/CD pipelines to streamline workflows
  ‚Ä¢ Manage cloud infrastructure on AWS
  ‚Ä¢ Implement monitoring solutions (Prometheus, Grafana)
  ‚Ä¢ Configure infrastructure as code using Ansible".

Definition README_md : jsstring :=
  lit "# Subash Aryal - DevOps Engineer Portfolio

Welcome to my terminal portfolio!

Quick Navigation:
- Scroll down to explore sections
- Use the command input at the bottom
- Try typing 'help' for available commands

Contact:
Email: aryalsubash07@gmail.com
GitHub: https://github.com/aryalsubash07
LinkedIn: https://linkedin.com/in/aryalsubash07".


(** [FILE_CONTENT]: its own properties, in the order of the literal. *)
Definition FILE_CONTENT : list (jsstring * jsstring) :=
  [(lit "about.txt", about_txt);
   (lit "experience.log", experience_log);
   (lit "README.md", README_md)].

Definition FILE_LIST : list jsstring :=
  [lit "about.txt"; lit "experience.log"; lit "skills/"; lit "projects/";
   lit "contact.sh"; lit "README.md"].

Definition LINKS_github : jsstring := lit "https://github.com/aryalsubash07".
Definition LINKS_linkedin : jsstring := lit "https://linkedin.com/in/aryalsubash07".
Definition LINKS_email : jsstring := lit "aryalsubash07@gmail.com".

(** [formatCommand(cmd, desc)] *)
Definition formatCommand (cmd desc : jsstring) : jsstring :=
  lit "  " ++ padEnd 18 cmd ++ lit " " ++ desc.

Definition help_content : jsstring :=
  lit "Available commands:

"
  ++ formatCommand (lit "help") (lit "Show this help")
  ++ LF
  ++ formatCommand (lit "clear") (lit "Clear terminal")
  ++ LF
  ++ formatCommand (lit "whoami") (lit "User information")
  ++ LF
  ++ formatCommand (lit "ls") (lit "List files")
  ++ LF
  ++ formatCommand (lit "cat <file>") (lit "Read file")
  ++ LF
  ++ formatCommand (lit "contact") (lit "Contact info")
  ++ LF
  ++ formatCommand (lit "github") (lit "Open GitHub")
  ++ LF
  ++ formatCommand (lit "linkedin") (lit "Open LinkedIn")
  ++ LF
  ++ formatCommand (lit "email") (lit "Send email")
  ++ LF
  ++ formatCommand (lit ":q") (lit "Close terminal").

Definition whoami_content : jsstring :=
  lit "subash aryal
‚îÅ‚îÅ‚îÅ‚îÅ‚îÅ‚îÅ‚îÅ‚îÅ‚îÅ‚îÅ‚îÅ‚îÅ‚îÅ‚îÅ‚îÅ‚îÅ‚îÅ‚îÅ‚îÅ‚îÅ‚îÅ‚îÅ‚îÅ‚îÅ‚îÅ‚îÅ‚îÅ‚îÅ‚îÅ‚îÅ‚îÅ‚îÅ‚îÅ‚îÅ‚îÅ‚îÅ‚îÅ‚îÅ‚îÅ‚îÅ
role:     DevOps Engineer
location: Nepal
email:    "
  ++ LINKS_email.

Definition contact_content : jsstring :=
  lit "CONTACT INFORMATION
‚îÅ‚îÅ‚îÅ‚îÅ‚îÅ‚îÅ‚îÅ‚îÅ‚îÅ‚îÅ‚îÅ‚îÅ‚îÅ‚îÅ‚îÅ‚îÅ‚îÅ‚îÅ‚îÅ‚îÅ‚îÅ‚îÅ‚îÅ‚îÅ‚îÅ‚îÅ‚îÅ‚îÅ‚îÅ‚îÅ‚îÅ‚îÅ‚îÅ‚îÅ‚îÅ‚îÅ‚îÅ‚îÅ‚îÅ‚îÅ

Email:    "
  ++ LINKS_email
  ++ lit "
GitHub:   "
  ++ LINKS_github
  ++ lit "
LinkedIn: "
  ++ LINKS_linkedin
  ++ lit "
Location: Nepal

I'm always open to discussing new opportunities, interesting projects,
or conversations about DevOps, cloud infrastructure, and automation.".

Definition icon_folder : jsstring := lit "üìÅ".
Definition icon_file : jsstring := lit "üìÑ".

(* ================================================================== *)
(** * Plain objects *)
(* ================================================================== *)

Fixpoint assoc {A} (k : jsstring) (l : list (jsstring * A)) : option A :=
  match l with
  | [] => None
  | (k', v) :: l' => if eqb k k' then Some v else assoc k l'
  end.

(** Reading the property [key] of [Object.prototype] through an object
    that inherits from it: its twelve properties, [undefined] otherwise. *)
Definition Object_prototype_properties : list (jsstring * jsval) :=
  [(lit "constructor", VFun (Builtin Object_constructor));
   (lit "__defineGetter__", VFun (Builtin Object_defineGetter));
   (lit "__defineSetter__", VFun (Builtin Object_defineSetter));
   (lit "hasOwnProperty", VFun (Builtin Object_hasOwnProperty));
   (lit "__lookupGetter__", VFun (Builtin Object_lookupGetter));
   (lit "__lookupSetter__", VFun (Builtin Object_lookupSetter));
   (lit "isPrototypeOf", VFun (Builtin Object_isPrototypeOf));
   (lit "propertyIsEnumerable", VFun (Builtin Object_propertyIsEnumerable));
   (lit "toString", VFun (Builtin Object_toString));
   (lit "valueOf", VFun (Builtin Object_valueOf));
   (** the accessor [__proto__] reads the prototype of the receiver *)
   (lit "__proto__", VObjectPrototype);
   (lit "toLocaleString", VFun (Builtin Object_toLocaleString))].

(** [o[key]] for an object literal [o] with the given own properties:
    the own property if there is one, else what [Object.prototype] has. *)
Definition get_property (own : list (jsstring * jsval)) (key : jsstring) : jsval :=
  match assoc key own with
  | Some v => v
  | None =>
      match assoc key Object_prototype_properties with
      | Some v => v
      | None => VUndefined
      end
  end.

(** The own properties of [CommandSystem.commands]. *)
Definition commands : list (jsstring * jsval) :=
  [(lit "help", VFun (Handler help));
   (lit "clear", VFun (Handler clear));
   (lit "whoami", VFun (Handler whoami));
   (lit "ls", VFun (Handler ls));
   (lit "cat", VFun (Handler cat));
   (lit "contact", VFun (Handler contact));
   (lit "github", VFun (Handler github));
   (lit "linkedin", VFun (Handler linkedin));
   (lit "email", VFun (Handler email));
   (lit ":q", VFun (Handler quit))].

Definition FILE_CONTENT_object : list (jsstring * jsval) :=
  map (fun kv => (fst kv, VStr (snd kv))) FILE_CONTENT.

(* ================================================================== *)
(** * CommandSystem *)
(* ================================================================== *)

Section CommandSystem.

Context {B : Builtins} (h : Host).

(** ** Host calls *)

Definition host_call (c : hostcall) : M unit :=
  log c ;;
  match fault h c with
  | Some e => throw e
  | None => ret tt
  end.

Definition TypeError (expr : jsstring) : Error :=
  {| name := lit "TypeError"; message := engineMessage h expr |}.

Definition SyntaxError (text : jsstring) : Error :=
  {| name := lit "SyntaxError"; message := engineMessage h text |}.

(** [Utils.$(selector)]: whether [document.querySelector] found an element. *)
Definition Utils_query (selector : jsstring) : M bool :=
  host_call (QuerySelector selector) ;;
  ret (present h selector).

Definition console_error (text : jsstring) (error : Error) : M unit :=
  log (ConsoleError text error).

Definition localStorage_getItem (key : jsstring) : M (option jsstring) :=
  host_call (GetItem key) ;;
  s <- get_state ;;
  ret (localStorage s).

Definition localStorage_setItem (key value : jsstring) : M unit :=
  host_call (SetItem key value) ;;
  set_localStorage (Some value).

(** [TerminalUI.closeTerminal()]; the callback given to [setTimeout] runs
    after [execute] has returned and is not part of this call. *)
Definition closeTerminal : M unit :=
  container <- Utils_query SELECTORS.terminalContainer ;;
  if negb container then ret tt else
  host_call (SetStyle SELECTORS.terminalContainer (lit "transform") (lit "translateY(100%)")) ;;
  host_call (SetStyle SELECTORS.terminalContainer (lit "opacity") (lit "0")) ;;
  host_call (SetTimeout CONFIG.terminalCloseDelay).

(** ** The handlers of [commands]

    [args] is [None] when the handler is called without an argument. *)
Definition handler (c : command) (args : option jsstring) : M jsval :=
  match c with
  | help => ret (CommandResult (lit "help") (VStr help_content))
  | clear =>
      historyEl <- Utils_query SELECTORS.commandHistory ;;
      (if historyEl
       then host_call (SetInnerHTML SELECTORS.commandHistory (lit ""))
       else ret tt) ;;
      ret (CommandResult (lit "success") (VStr (lit "Terminal cleared.")))
  | whoami => ret (CommandResult (lit "info") (VStr whoami_content))
  | ls =>
      let output :=
        join LF
          (map (fun file =>
                  let icon := if endsWith (lit "/") file then icon_folder else icon_file in
                  icon ++ lit "  " ++ file)
               FILE_LIST) in
      ret (CommandResult (lit "list") (VStr output))
  | cat =>
      match args with
      | None => throw (TypeError (lit "args.trim"))
      | Some args =>
          let file := trim args in
          if truthy (get_property FILE_CONTENT_object file)
          then ret (CommandResult (lit "info") (get_property FILE_CONTENT_object file))
          else ret (CommandResult (lit "error")
                      (VStr (lit "cat: " ++ file ++ lit ": No such file or directory")))
      end
  | contact => ret (CommandResult (lit "info") (VStr contact_content))
  | github =>
      host_call (WindowOpen LINKS_github (lit "_blank") (lit "noopener,noreferrer")) ;;
      ret (CommandResult (lit "success") (VStr (lit "Opening GitHub profile...")))
  | linkedin =>
      host_call (WindowOpen LINKS_linkedin (lit "_blank") (lit "noopener,noreferrer")) ;;
      ret (CommandResult (lit "success") (VStr (lit "Opening LinkedIn profile...")))
  | email =>
      host_call (SetLocationHref
                   (lit "mailto:" ++ LINKS_email ++ lit "?subject=Portfolio%20Inquiry")) ;;
      ret (CommandResult (lit "success") (VStr (lit "Opening email client...")))
  | quit =>
      closeTerminal ;;
      ret (CommandResult (lit "info")
             (VStr (lit "Terminal closed. Press ` or ~ to reopen.")))
  end.

(** ** Calling an inherited property of [commands]

    [this] is the [commands] object; a missing argument is [undefined],
    whose property key is ["undefined"]. *)
Definition has_own (own : list (jsstring * jsval)) (key : jsstring) : bool :=
  match assoc key own with Some _ => true | None => false end.

Definition call_builtin (b : builtin) (expr : jsstring) (args : option jsstring) : M jsval :=
  let key := match args with Some a => a | None => lit "undefined" end in
  match b with
  | Object_constructor =>
      ret (match args with Some a => VStringObject a | None => VObj [] end)
  | Object_hasOwnProperty => ret (VBool (has_own commands key))
  | Object_isPrototypeOf => ret (VBool false)
  | Object_propertyIsEnumerable => ret (VBool (has_own commands key))
  | Object_toString => ret (VStr (lit "[object Object]"))
  | Object_toLocaleString => ret (VStr (lit "[object Object]"))
  | Object_valueOf => ret (VObj commands)
  | Object_defineGetter => throw (TypeError expr)
  | Object_defineSetter => throw (TypeError expr)
  | Object_lookupGetter =>
      ret (if has_own commands key then VUndefined
           else if eqb key (lit "__proto__") then VFun (Builtin Object_proto_get)
           else VUndefined)
  | Object_lookupSetter =>
      ret (if has_own commands key then VUndefined
           else if eqb key (lit "__proto__") then VFun (Builtin Object_proto_set)
           else VUndefined)
  | Object_proto_get => ret VObjectPrototype
  | Object_proto_set => ret VUndefined
  end.

(** [f(args)] for the value [f] read from [commands] by the expression
    [expr]: a [TypeError] unless [f] is a function. *)
Definition call (f : jsval) (expr : jsstring) (args : option jsstring) : M jsval :=
  match f with
  | VFun (Handler c) => handler c args
  | VFun (Builtin b) => call_builtin b expr args
  | _ => throw (TypeError expr)
  end.

(** ** [execute(input)] *)

(** The locals [parts], [cmd] and [args] of [execute], from the trimmed
    input. *)
Definition execute_parts (trimmed : jsstring) : list jsstring := split_ws trimmed.
Definition execute_cmd (trimmed : jsstring) : jsstring :=
  toLowerCase (nth 0 (execute_parts trimmed) []).
Definition execute_args (trimmed : jsstring) : jsstring :=
  join (lit " ") (skipn 1 (execute_parts trimmed)).

(** The statements of [execute] that follow its locals. *)
Definition dispatch (trimmed cmd args : jsstring) : M jsval :=
  (* Handle vi-style quit *)
  if eqb trimmed (lit ":q") || eqb cmd (lit ":q") then
    call (get_property commands (lit ":q")) (lit ":q") None
  (* Execute command *)
  else if truthy (get_property commands cmd) then
    try_catch
      (result <- call (get_property commands cmd) cmd (Some args) ;;
       ret (if truthy result then result else CommandResult (lit "info") (VStr (lit ""))))
      (fun error =>
         console_error (lit "Error executing command: " ++ cmd) error ;;
         ret (CommandResult (lit "error") (VStr (lit "Error: " ++ message error))))
  else
    ret (CommandResult (lit "error")
           (VStr (lit "Command not found: " ++ cmd
                  ++ lit ". Type 'help' for available commands."))).

Definition execute (input : jsstring) : M jsval :=
  let trimmed := trim input in
  if negb (truthy (VStr trimmed)) then ret VNull else
  dispatch trimmed (execute_cmd trimmed) (execute_args trimmed).

(** ** The history store *)

(** [JSON.parse(saved).slice(-CONFIG.maxHistoryItems)]: arrays and strings
    have [slice]; on any other value the call is a [TypeError]. *)
Definition parse_and_slice (saved : jsstring) : M hist :=
  match JSON_parse saved with
  | None => throw (SyntaxError saved)
  | Some (VArr l) => ret (HArray (slice_last CONFIG.maxHistoryItems l))
  | Some (VStr s) => ret (HString (slice_last CONFIG.maxHistoryItems s))
  | Some _ => throw (TypeError (lit "JSON.parse(...).slice"))
  end.

Definition loadHistory : M unit :=
  try_catch
    (saved <- localStorage_getItem CONFIG.storageKey ;;
     match saved with
     | Some (c :: s) =>
         sliced <- parse_and_slice (c :: s) ;;
         set_history sliced
     | Some [] | None => ret tt
     end)
    (fun error =>
       console_error (lit "Error loading command history:") error ;;
       set_history (HArray [])).

Definition init : M unit :=
  loadHistory ;;
  s <- get_state ;;
  set_historyIndex (hist_length (history s)).

Definition saveHistory : M unit :=
  try_catch
    (s <- get_state ;;
     localStorage_setItem CONFIG.storageKey (JSON_stringify (hist_value (history s))))
    (fun error => console_error (lit "Error saving command history:") error).

(** [push] then, past the maximum, [shift]. *)
Definition push_bounded (l : list jsval) (trimmed : jsstring) : list jsval :=
  let pushed := l ++ [VStr trimmed] in
  if (CONFIG.maxHistoryItems <? length pushed)%nat then tl pushed else pushed.

Definition addToHistory (command : jsstring) : M unit :=
  let trimmed := trim command in
  if negb (truthy (VStr trimmed)) then ret tt else
  s <- get_state ;;
  match history s with
  | HString _ => throw (TypeError (lit "this.history.push"))
  | HArray l =>
      set_history (HArray (push_bounded l trimmed)) ;;
      set_historyIndex (Z.of_nat (length (push_bounded l trimmed))) ;;
      saveHistory
  end.

Definition getPrevious : M jsval :=
  s <- get_state ;;
  if (0 <? historyIndex s)%Z then
    set_historyIndex (historyIndex s - 1) ;;
    ret (hist_get (history s) (historyIndex s - 1))
  else ret (VStr (lit "")).

Definition getNext : M jsval :=
  s <- get_state ;;
  if (historyIndex s <? hist_length (history s) - 1)%Z then
    set_historyIndex (historyIndex s + 1) ;;
    ret (hist_get (history s) (historyIndex s + 1))
  else
    set_historyIndex (hist_length (history s)) ;;
    ret (VStr (lit "")).

End CommandSystem.

(** The object as the script creates it, before [init]. *)
Definition initial (stored : option jsstring) : State :=
  {| history := HArray []; historyIndex := (-1)%Z;
     localStorage := stored; trace := [] |}.

(* ================================================================== *)
(** * A reference environment *)
(* ================================================================== *)

(** An instance of [Builtins] to run the model on concrete inputs:
    lower-casing of Basic Latin (other units unchanged), and the JSON codec
    on arrays of strings that need no escape, written without blanks (on
    those it agrees with [JSON.parse]; anything else is refused). *)
Module Reference.

Inductive pstate :=
| PStart | PFirst | PIn (acc : jsstring) | PAfter | PNext | PDone.

Fixpoint parse_go (st : pstate) (out : list jsval) (s : jsstring) : option jsval :=
  match s with
  | [] => match st with PDone => Some (VArr (rev out)) | _ => None end
  | c :: s' =>
      match st with
      | PStart => if (c =? 91)%N then parse_go PFirst out s' else None
      | PFirst =>
          if (c =? 93)%N then parse_go PDone out s'
          else if (c =? 34)%N then parse_go (PIn []) out s' else None
      | PIn acc =>
          if (c =? 34)%N then parse_go PAfter (VStr (rev acc) :: out) s'
          else if ((c =? 92) || (c <? 32))%N then None
          else parse_go (PIn (c :: acc)) out s'
      | PAfter =>
          if (c =? 44)%N then parse_go PNext out s'
          else if (c =? 93)%N then parse_go PDone out s' else None
      | PNext => if (c =? 34)%N then parse_go (PIn []) out s' else None
      | PDone => None
      end
  end.

Definition parse (s : jsstring) : option jsval := parse_go PStart [] s.

Definition quote (v : jsval) : jsstring :=
  match v with
  | VStr s => [34%N] ++ s ++ [34%N]
  | _ => lit "null"
  end.

Definition stringify (v : jsval) : jsstring :=
  match v with
  | VArr l => lit "[" ++ join (lit ",") (map quote l) ++ lit "]"
  | _ => quote v
  end.

Definition builtins : Builtins :=
  {| toLowerCase := map asciiLower;
     toLowerCase_ascii := fun _ _ => eq_refl;
     JSON_parse := parse;
     JSON_stringify := stringify |}.

(** A host where nothing throws and every selector matches. *)
Definition quiet : Host :=
  {| fault := fun _ => None;
     present := fun _ => true;
     engineMessage := fun expr => expr ++ lit " is not a function" |}.

(** A host whose [window.open] throws. *)
Definition popup_blocked : Error :=
  {| name := lit "Error"; message := lit "blocked" |}.

Definition blocking : Host :=
  {| fault := fun c => match c with WindowOpen _ _ _ => Some popup_blocked | _ => None end;
     present := fun _ => true;
     engineMessage := fun expr => expr ++ lit " is not a function" |}.

(** A host whose [document.querySelector] throws. *)
Definition no_document : Error :=
  {| name := lit "ReferenceError"; message := lit "document is not defined" |}.

Definition headless : Host :=
  {| fault := fun c => match c with QuerySelector _ => Some no_document | _ => None end;
     present := fun _ => false;
     engineMessage := fun expr => expr ++ lit " is not a function" |}.

(** The stored text of the list ["a", "b"]. *)
Definition stored_ab : jsstring := stringify (VArr [VStr (lit "a"); VStr (lit "b")]).


(** A state after two submissions, the cursor past the end. *)
Definition two_entries : State :=
  {| history := HArray [VStr (lit "ls"); VStr (lit "help")];
     historyIndex := 2;
     localStorage := None;
     trace := [] |}.

(** A state whose list is at the maximum: fifty times ["ls"]. *)
Definition full : State :=
  {| history := HArray (repeat (VStr (lit "ls")) 50);
     historyIndex := 50;
     localStorage := None;
     trace := [] |}.

End Reference.

(* ================================================================== *)
(** * Vocabulary of the properties *)
(* ================================================================== *)

(** What remains of a line after its first white-space-delimited token
    and the white space that ends it, unchanged. *)
Definition rest_after_first_token (s : jsstring) : jsstring :=
  dropWhile isWhiteSpace (dropWhile (fun c => negb (isWhiteSpace c)) s).

(** Each maximal run of white space replaced by one space. *)
Fixpoint collapse_go (in_run : bool) (s : jsstring) : jsstring :=
  match s with
  | [] => []
  | c :: s' =>
      if isWhiteSpace c
      then if in_run then collapse_go true s' else 32%N :: collapse_go true s'
      else c :: collapse_go false s'
  end.

Definition collapse_ws (s : jsstring) : jsstring := collapse_go false s.

(** A non-empty string that neither starts nor ends with white space. *)
Definition no_outer_ws (s : jsstring) : Prop :=
  s <> [] /\ isWhiteSpace (hd 0%N s) = false /\ isWhiteSpace (last s 0%N) = false.




(** The kinds of a CommandResult. *)
Definition kinds : list jsstring :=
  [lit "info"; lit "success"; lit "error"; lit "list"; lit "help"].

(** A CommandResult: an object with a kind and a text. *)
Definition is_CommandResult (v : jsval) : Prop :=
  exists kind text, In kind kinds /\ v = CommandResult kind (VStr text).

(** The cursor is within [0, length]. *)
Definition cursor_ok (s : State) : Prop :=
  (0 <= historyIndex s <= hist_length (history s))%Z.

(** [v] is the entry of the history at index [i]. *)
Definition is_entry (h : hist) (i : Z) (v : jsval) : Prop :=
  (0 <= i)%Z /\
  match h with
  | HArray l => nth_error l (Z.to_nat i) = Some v
  | HString s => exists c, nth_error s (Z.to_nat i) = Some c /\ v = VStr [c]
  end.

Definition with_historyIndex (s : State) (i : Z) : State :=
  {| history := history s; historyIndex := i;
     localStorage := localStorage s; trace := trace s |}.

(** The operations of the history store after [init], and the state a
    sequence of them leaves, whether each returns or throws. *)
Inductive op :=
| Add (command : jsstring)
| Previous
| Next.

Definition step {B : Builtins} (h : Host) (s : State) (o : op) : State :=
  match o with
  | Add command => snd (addToHistory h command s)
  | Previous => snd (getPrevious s)
  | Next => snd (getNext s)
  end.

Definition run_ops {B : Builtins} (h : Host) (ops : list op) (s : State) : State :=
  fold_left (step h) ops s.

(* ================================================================== *)
(** * Vocabulary of the further properties *)
(* ================================================================== *)

(** [s'] differs from [s] by host calls appended to the trace only. *)
Definition extends (s s' : State) : Prop :=
  history s' = history s
  /\ historyIndex s' = historyIndex s
  /\ localStorage s' = localStorage s
  /\ exists calls, trace s' = trace s ++ calls.

(** A computation that, from every state, only appends to the trace. *)
Definition trace_only {A} (m : M A) : Prop :=
  forall s, extends s (snd (m s)).

(** The host calls of [TerminalUI.closeTerminal]. *)
Definition closeTerminal_calls : list hostcall :=
  [QuerySelector SELECTORS.terminalContainer;
   SetStyle SELECTORS.terminalContainer (lit "transform") (lit "translateY(100%)");
   SetStyle SELECTORS.terminalContainer (lit "opacity") (lit "0");
   SetTimeout CONFIG.terminalCloseDelay].

(** The ways [loadHistory] fails, with the error it catches: the read
    throws; the stored text does not parse; what it parses to is neither an
    array nor a string, so that [slice] cannot be called. *)
Inductive load_failure {B : Builtins} (h : Host) (s : State) : Error -> Prop :=
| Read_throws e :
    fault h (GetItem CONFIG.storageKey) = Some e ->
    load_failure h s e
| Parse_throws saved :
    fault h (GetItem CONFIG.storageKey) = None ->
    localStorage s = Some saved -> saved <> [] ->
    JSON_parse saved = None ->
    load_failure h s (SyntaxError h saved)
| Slice_throws saved v :
    fault h (GetItem CONFIG.storageKey) = None ->
    localStorage s = Some saved -> saved <> [] ->
    JSON_parse saved = Some v ->
    (forall l, v <> VArr l) -> (forall t, v <> VStr t) ->
    load_failure h s (TypeError h (lit "JSON.parse(...).slice")).

(** The state after pressing ArrowUp [k] times. *)
Fixpoint ups (k : nat) (s : State) : State :=
  match k with
  | O => s
  | S k' => ups k' (snd (getPrevious s))
  end.

(** A second environment, whose JSON codec also reads and writes a string
    that needs no escape (with the arrays of the first). *)
Module Reference2.

Fixpoint parse_string (acc : jsstring) (s : jsstring) : option jsval :=
  match s with
  | [] => None
  | c :: s' =>
      if (c =? 34)%N then match s' with [] => Some (VStr (rev acc)) | _ => None end
      else if ((c =? 92) || (c <? 32))%N then None
      else parse_string (c :: acc) s'
  end.

Definition parse (s : jsstring) : option jsval :=
  match s with
  | 34%N :: s' => parse_string [] s'
  | _ => Reference.parse s
  end.

Definition builtins : Builtins :=
  {| toLowerCase := map asciiLower;
     toLowerCase_ascii := fun _ _ => eq_refl;
     JSON_parse := parse;
     JSON_stringify := Reference.stringify |}.

(** A host whose storage is full: [setItem] throws. *)
Definition quota_exceeded : Error :=
  {| name := lit "QuotaExceededError"; message := lit "The quota has been exceeded." |}.

Definition storage_full : Host :=
  {| fault := fun c => match c with SetItem _ _ => Some quota_exceeded | _ => None end;
     present := fun _ => true;
     engineMessage := fun expr => expr ++ lit " is not a function" |}.

End Reference2.

(* ================================================================== *)
(** * Utils *)
(* ================================================================== *)

(** [Utils.escapeHtml(text)] on a string: the text becomes the only child
    of a fresh [div] ([textContent]), and the [div] is serialised
    ([innerHTML]); serialising a text node replaces [&], U+00A0, [<] and
    [>] by their character references and keeps every other unit. *)
Definition escapeHtml_unit (c : N) : jsstring :=
  if (c =? 38)%N then lit "&amp;"
  else if (c =? 160)%N then lit "&nbsp;"
  else if (c =? 60)%N then lit "&lt;"
  else if (c =? 62)%N then lit "&gt;"
  else [c].

Definition escapeHtml (text : jsstring) : jsstring :=
  flat_map escapeHtml_unit text.

(** [Utils.throttle(func, limit)]: the function it returns, as a machine
    over four events: a call of the returned function with its arguments,
    from the page or from inside [func] itself while it runs; the
    application of [func] that is running returning, or throwing; and the
    firing of a timer the machine has set.  [inThrottle] starts out
    [undefined], which is falsy, and is set only after [func] has
    returned, so that a call made by [func] while it runs is let through;
    when [func] throws, the statements after it do not run.  Events that
    cannot occur (a return or a throw with no application running, a timer
    that fires while [func] runs or when none is set) leave the machine as
    it is. *)
Section Throttle.

Variable Args : Type.










End Throttle.

(* ================================================================== *)
(** * The page: CommandInput and TerminalUI *)
(* ================================================================== *)

Definition DQ : jsstring := [34%N].

Module KEYS.
Definition ENTER : jsstring := lit "Enter".
Definition ARROW_UP : jsstring := lit "ArrowUp".
Definition ARROW_DOWN : jsstring := lit "ArrowDown".
Definition BACKTICK : jsstring := lit "`".
Definition TILDE : jsstring := lit "~".
End KEYS.

(** [SELECTORS.commandInput] *)
Definition SELECTORS_commandInput : jsstring := lit "#commandInput".

(** The conversion of a value to a string (ToString), which is the
    identity on strings; its other cases are the engine's. *)
Class Conversions := {
  ToString : jsval -> jsstring;
  ToString_string : forall s, ToString (VStr s) = s
}.

(** What [input.value = v] stores: [null] gives the empty string. *)
Definition value_string {C : Conversions} (v : jsval) : jsstring :=
  match v with
  | VNull => []
  | _ => ToString v
  end.

(** What [div.textContent = v] makes the text: [null] and [undefined]
    give none. *)
Definition text_string {C : Conversions} (v : jsval) : jsstring :=
  match v with
  | VNull | VUndefined => []
  | _ => ToString v
  end.

(** [result.type] and [result.content]: the properties of an object
    literal; the other values [execute] can return (a String object, a
    boolean, a string, a function) have neither property. *)
Definition result_field (result : jsval) (key : jsstring) : jsval :=
  match result with
  | VObj properties => get_property properties key
  | _ => VUndefined
  end.

(** A [div] with the class name and the markup the code gives it. *)
Record Div := { className : jsstring; innerHTML : jsstring }.

(** A [div.history-item]: its command line and, when the result has
    content, its output. *)
Record HistoryItem := { commandLine : Div; outputDiv : option Div }.

Definition commandLine_before : jsstring :=
  lit "
                <span class=" ++ DQ ++ lit "prompt-symbol" ++ DQ ++ lit ">‚ùØ</span> 
                <span class=" ++ DQ ++ lit "command-text" ++ DQ ++ lit ">".

Definition commandLine_after : jsstring :=
  lit "</span>
            ".

(** [createHistoryItem(command, result)] *)
Definition createHistoryItem {C : Conversions} (command : jsstring) (result : jsval)
  : HistoryItem :=
  {| commandLine :=
       {| className := lit "history-command";
          innerHTML := commandLine_before ++ escapeHtml command ++ commandLine_after |};
     outputDiv :=
       if truthy (result_field result (lit "content")) then
         Some {| className := lit "history-output output-"
                              ++ ToString (result_field result (lit "type"));
                 innerHTML := lit "<pre>"
                              ++ escapeHtml (text_string (result_field result (lit "content")))
                              ++ lit "</pre>" |}
       else None |}.

(** The inline style of [.terminal-container], as far as the code writes
    and reads it. *)
Record Style := { display : jsstring; transform : jsstring; opacity : jsstring }.

(** Where the transcript is scrolled: at the bottom after
    [scrollTop = scrollHeight], unknown after its content changed. *)
Inductive scrolled := Unknown | Bottom.

Record Page := {
  system : State;
  (** [#commandInput]'s value, and whether [focus()] was called on it *)
  inputValue : jsstring;
  inputFocused : bool;
  (** the [.history-item] elements in [#commandHistory], oldest first *)
  transcript : list HistoryItem;
  transcriptScroll : scrolled;
  containerStyle : Style;
  (** timeouts set by [closeTerminal] that have not fired *)
  closeTimers : nat
}.

Definition with_system (p : Page) (s : State) : Page :=
  {| system := s; inputValue := inputValue p; inputFocused := inputFocused p;
     transcript := transcript p; transcriptScroll := transcriptScroll p;
     containerStyle := containerStyle p; closeTimers := closeTimers p |}.

Definition with_inputValue (p : Page) (v : jsstring) : Page :=
  {| system := system p; inputValue := v; inputFocused := inputFocused p;
     transcript := transcript p; transcriptScroll := transcriptScroll p;
     containerStyle := containerStyle p; closeTimers := closeTimers p |}.

Definition with_inputFocused (p : Page) (b : bool) : Page :=
  {| system := system p; inputValue := inputValue p; inputFocused := b;
     transcript := transcript p; transcriptScroll := transcriptScroll p;
     containerStyle := containerStyle p; closeTimers := closeTimers p |}.

Definition with_transcript (p : Page) (items : list HistoryItem) (sc : scrolled) : Page :=
  {| system := system p; inputValue := inputValue p; inputFocused := inputFocused p;
     transcript := items; transcriptScroll := sc;
     containerStyle := containerStyle p; closeTimers := closeTimers p |}.

Definition with_containerStyle (p : Page) (st : Style) : Page :=
  {| system := system p; inputValue := inputValue p; inputFocused := inputFocused p;
     transcript := transcript p; transcriptScroll := transcriptScroll p;
     containerStyle := st; closeTimers := closeTimers p |}.

Definition with_closeTimers (p : Page) (n : nat) : Page :=
  {| system := system p; inputValue := inputValue p; inputFocused := inputFocused p;
     transcript := transcript p; transcriptScroll := transcriptScroll p;
     containerStyle := containerStyle p; closeTimers := n |}.

(** [container.style[property] = value] *)
Definition set_style (st : Style) (property value : jsstring) : Style :=
  if eqb property (lit "display")
  then {| display := value; transform := transform st; opacity := opacity st |}
  else if eqb property (lit "transform")
  then {| display := display st; transform := value; opacity := opacity st |}
  else if eqb property (lit "opacity")
  then {| display := display st; transform := transform st; opacity := value |}
  else st.

(** What a host call that did not throw does to the page: emptying the
    markup of [#commandHistory] removes its items (the code assigns no
    other markup to it), a style assignment on [.terminal-container]
    changes its style, [setTimeout] sets a timer.  The other calls leave
    the page as it is. *)
Definition apply_call (p : Page) (c : hostcall) : Page :=
  match c with
  | SetInnerHTML selector html =>
      if eqb selector SELECTORS.commandHistory && eqb html (lit "")
      then with_transcript p [] Unknown
      else p
  | SetStyle selector property value =>
      if eqb selector SELECTORS.terminalContainer
      then with_containerStyle p (set_style (containerStyle p) property value)
      else p
  | SetTimeout _ => with_closeTimers p (S (closeTimers p))
  | _ => p
  end.

Definition P (A : Type) := Page -> outcome A * Page.

Definition pret {A} (a : A) : P A := fun p => (Ret a, p).
Definition pbind {A C} (m : P A) (f : A -> P C) : P C :=
  fun p => match m p with
           | (Ret a, p') => f a p'
           | (Throw e, p') => (Throw e, p')
           end.
Definition get_page : P Page := fun p => (Ret p, p).
Definition update (f : Page -> Page) : P unit := fun p => (Ret tt, f p).

Declare Scope page_scope.
Delimit Scope page_scope with page.
Notation "x <-- m ;;; k" := (pbind m (fun x => k))
  (at level 61, m at next level, right associativity) : page_scope.
Notation "m ;;; k" := (pbind m (fun _ => k))
  (at level 61, right associativity) : page_scope.
Open Scope page_scope.

Section Page.

Context {B : Builtins} {C : Conversions} (h : Host).

(** The effect on the page of a logged call: none when the call threw. *)
Definition effect (p : Page) (c : hostcall) : Page :=
  match fault h c with
  | Some _ => p
  | None => apply_call p c
  end.

(** A computation of [CommandSystem] or a host call, run on the page: the
    calls it appends to the trace take their effect on the page. *)
Definition lift {A} (m : M A) : P A :=
  fun p =>
    let (r, s') := m (system p) in
    (r, fold_left effect (skipn (length (trace (system p))) (trace s'))
          (with_system p s')).

(** ** TerminalUI *)

(** [TerminalUI.reopenTerminal()] *)
Definition reopenTerminal : P unit :=
  container <-- lift (Utils_query h SELECTORS.terminalContainer) ;;;
  p <-- get_page ;;;
  if container && eqb (display (containerStyle p)) (lit "none") then
    lift (host_call h (SetStyle SELECTORS.terminalContainer (lit "display") (lit "block"))) ;;;
    lift (host_call h (SetStyle SELECTORS.terminalContainer (lit "transform")
                         (lit "translateY(0)"))) ;;;
    lift (host_call h (SetStyle SELECTORS.terminalContainer (lit "opacity") (lit "1"))) ;;;
    input <-- lift (Utils_query h SELECTORS_commandInput) ;;;
    if input then update (fun p => with_inputFocused p true) else pret tt
  else pret tt.

(** The listener of [setupReopenShortcut], on a key. *)
Definition reopenShortcut (key : jsstring) : P unit :=
  if eqb key KEYS.BACKTICK || eqb key KEYS.TILDE then reopenTerminal else pret tt.

(** The listener of [setupCloseButton], and the call of the quit handler. *)
Definition TerminalUI_closeTerminal : P unit := lift (closeTerminal h).

(** The callback [closeTerminal] gives [setTimeout], when its timer fires:
    the container it closes over is the one that was found. *)
Definition closeTimer_fires : P unit :=
  p <-- get_page ;;;
  match closeTimers p with
  | O => pret tt
  | S n =>
      update (fun p => with_closeTimers p n) ;;;
      lift (host_call h (SetStyle SELECTORS.terminalContainer (lit "display") (lit "none")))
  end.

(** ** CommandInput

    [this.input] is the element found at [init] (the listeners are set
    only when there is one); [this.historyContainer] is there when the
    host has the element. *)

(** [limitHistoryItems()] *)
Definition limitHistoryItems : P unit :=
  p <-- get_page ;;;
  if (CONFIG.maxHistoryItems <? length (transcript p))%nat
  then update (fun p => with_transcript p (tl (transcript p)) Unknown)
  else pret tt.

(** [addToHistoryDisplay(command, result)] *)
Definition addToHistoryDisplay (command : jsstring) (result : jsval) : P unit :=
  if negb (present h SELECTORS.commandHistory) then pret tt else
  let item := createHistoryItem command result in
  update (fun p => with_transcript p (transcript p ++ [item]) Unknown) ;;;
  limitHistoryItems.

(** [scrollToBottom()] *)
Definition scrollToBottom : P unit :=
  if present h SELECTORS.commandHistory
  then update (fun p => with_transcript p (transcript p) Bottom)
  else pret tt.

(** [executeCommand()] *)
Definition executeCommand : P unit :=
  p <-- get_page ;;;
  let command := trim (inputValue p) in
  if negb (truthy (VStr command)) then pret tt else
  lift (addToHistory h command) ;;;
  result <-- lift (execute h command) ;;;
  (if truthy result then addToHistoryDisplay command result else pret tt) ;;;
  update (fun p => with_inputValue p (lit "")) ;;;
  (p <-- get_page ;;;
   lift (set_historyIndex (hist_length (history (system p))))) ;;;
  scrollToBottom.

(** [handleKeyDown(e)], on [e.key]; [e.preventDefault()] changes nothing
    of the page as modelled. *)
Definition handleKeyDown (key : jsstring) : P unit :=
  if eqb key KEYS.ENTER then executeCommand
  else if eqb key KEYS.ARROW_UP then
    v <-- lift getPrevious ;;;
    update (fun p => with_inputValue p (value_string v))
  else if eqb key KEYS.ARROW_DOWN then
    v <-- lift getNext ;;;
    update (fun p => with_inputValue p (value_string v))
  else pret tt.

End Page.

(** A page operation keeps a property of the page. *)
Definition preserves {A} (Q : Page -> Prop) (m : P A) : Prop :=
  forall p, Q p -> Q (snd (m p)).

(** The transcript shows at most the maximum of items. *)
Definition transcript_bounded (p : Page) : Prop :=
  (length (transcript p) <= CONFIG.maxHistoryItems)%nat.

(** A host none of whose calls throws. *)
Definition never_throws (h : Host) : Prop := forall c, fault h c = None.

(** A page as it is loaded: the input empty, no inline style, no timer. *)
Definition fresh_page (s : State) (items : list HistoryItem) : Page :=
  {| system := s;
     inputValue := lit "";
     inputFocused := false;
     transcript := items;
     transcriptScroll := Unknown;
     containerStyle := {| display := lit ""; transform := lit ""; opacity := lit "" |};
     closeTimers := 0 |}.

Module ReferencePage.

(** Strings as they are; the other values are not needed by the
    examples. *)
Definition conversions : Conversions :=
  {| ToString := fun v => match v with VStr s => s | _ => lit "[object]" end;
     ToString_string := fun _ => eq_refl |}.

End ReferencePage.

(* ================================================================== *)
(** * App: the animation toggle *)
(* ================================================================== *)

Module Motion.

(** What the host answers to [initAnimationToggle], its click listener
    and the guards of [initSiteCanvas]: whether [#animToggle] is there,
    what the media query [(prefers-reduced-motion: reduce)] matches,
    whether [#siteCanvas] and its 2d context are there, and the error of
    [localStorage.getItem] and [setItem] when they throw (the lookups and
    the class changes are taken not to throw). *)
Record MotionHost := {
  togglePresent : bool;
  prefersReducedMotion : bool;
  canvasReady : bool;
  getItemFault : option Error;
  setItemFault : option Error
}.

Record MotionState := {
  (** the root element has the class [reduced-motion] *)
  reducedMotion : bool;
  (** [#animToggle] has the class [active] *)
  toggleActive : bool;
  (** the [localStorage] slot ['animations-enabled'] *)
  stored : option jsstring;
  (** the calls of [initSiteCanvas] that passed its guards: each starts an
      animation loop and adds a resize listener *)
  canvasStarts : nat;
  (** the click listeners added to [#animToggle]: each call of
      [initAnimationToggle] that finds the toggle adds one more *)
  listeners : nat
}.

Definition MM (A : Type) := MotionState -> outcome A * MotionState.

Section WithHost.

Variable mh : MotionHost.

(** [this.initSiteCanvas()], as far as the toggle is concerned. *)
Definition initSiteCanvas (m : MotionState) : MotionState :=
  if canvasReady mh
  then {| reducedMotion := reducedMotion m; toggleActive := toggleActive m;
          stored := stored m; canvasStarts := S (canvasStarts m);
          listeners := listeners m |}
  else m.

(** [initAnimationToggle()] *)
Definition initAnimationToggle : MM unit :=
  fun m =>
    if negb (togglePresent mh) then (Ret tt, m) else
    match getItemFault mh with
    | Some e => (Throw e, m)
    | None =>
        let isEnabled :=
          negb (match stored m with
                | Some v => eqb v (lit "false")
                | None => false
                end) in
        let reduce := prefersReducedMotion mh || negb isEnabled in
        (Ret tt,
         {| reducedMotion := if reduce then true else reducedMotion m;
            toggleActive := if reduce then true else toggleActive m;
            stored := stored m;
            canvasStarts := canvasStarts m;
            listeners := S (listeners m) |})
    end.

(** One run of the click listener that [initAnimationToggle] adds. *)
Definition click_listener : MM unit :=
  fun m =>
    if reducedMotion m then
      match setItemFault mh with
      | Some e =>
          (Throw e,
           {| reducedMotion := false; toggleActive := false; stored := stored m;
              canvasStarts := canvasStarts m; listeners := listeners m |})
      | None =>
          (Ret tt,
           initSiteCanvas
             {| reducedMotion := false; toggleActive := false;
                stored := Some (lit "true");
                canvasStarts := canvasStarts m; listeners := listeners m |})
      end
    else
      match setItemFault mh with
      | Some e =>
          (Throw e,
           {| reducedMotion := true; toggleActive := true; stored := stored m;
              canvasStarts := canvasStarts m; listeners := listeners m |})
      | None =>
          (Ret tt,
           {| reducedMotion := true; toggleActive := true;
              stored := Some (lit "false");
              canvasStarts := canvasStarts m; listeners := listeners m |})
      end.

(** The listeners of one click, run one after the other: what a listener
    throws is reported and does not keep the next from running.  The
    result is the errors thrown, in order, and the state left. *)
Fixpoint run_listeners (n : nat) (m : MotionState) : list Error * MotionState :=
  match n with
  | O => ([], m)
  | S k =>
      let (thrown, m') := run_listeners k (snd (click_listener m)) in
      (match fst (click_listener m) with
       | Throw e => e :: thrown
       | Ret _ => thrown
       end, m')
  end.

(** A click on [#animToggle]: every listener added so far runs. *)
Definition toggle_click (m : MotionState) : list Error * MotionState :=
  run_listeners (listeners m) m.

End WithHost.

(** The page as a reload finds it: no class set by the script, no
    listener, the slot as it was left. *)
Definition loaded (slot : option jsstring) (active : bool) : MotionState :=
  {| reducedMotion := false; toggleActive := active; stored := slot;
     canvasStarts := 0; listeners := 0 |}.

(** A host with the toggle and the canvas, no preference, no fault. *)
Definition plain : MotionHost :=
  {| togglePresent := true; prefersReducedMotion := false; canvasReady := true;
     getItemFault := None; setItemFault := None |}.

End Motion.


(* ================================================================== *)
(** * Strings: trimming and splitting *)
(* ================================================================== *)

Lemma eqb_eq a b : eqb a b = true <-> a = b.
Proof.
  revert b; induction a as [|x a IH]; intros [|y b]; simpl;
    try (split; [discriminate | discriminate]); [tauto|].
  rewrite andb_true_iff, N.eqb_eq, IH.
  split; [intros [-> ->]; reflexivity | intros E; injection E; auto].
Qed.

Lemma eqb_refl a : eqb a a = true.
Proof. now apply eqb_eq. Qed.

Lemma eqb_neq a b : eqb a b = false <-> a <> b.
Proof.
  rewrite <- eqb_eq. destruct (eqb a b); split; congruence.
Qed.

Lemma dropWhile_head p s c r : dropWhile p s = c :: r -> p c = false.
Proof.
  induction s as [|d s IH]; simpl; [discriminate|].
  destruct (p d) eqn:E; [exact IH|].
  intros H; injection H as -> _; exact E.
Qed.

Lemma dropWhile_split p s :
  exists pre, s = pre ++ dropWhile p s /\ forallb p pre = true.
Proof.
  induction s as [|d s [pre [H1 H2]]]; simpl.
  - exists []; split; reflexivity.
  - destruct (p d) eqn:E.
    + exists (d :: pre); simpl; rewrite E, H2; split; [f_equal; exact H1 | reflexivity].
    + exists []; split; reflexivity.
Qed.

Lemma trim_shape s : trim s = [] \/ no_outer_ws (trim s).
Proof.
  unfold trim, trimEnd, trimStart.
  set (t := dropWhile isWhiteSpace s).
  destruct (dropWhile isWhiteSpace (rev t)) as [|d u] eqn:U; [left; reflexivity|right].
  pose proof (dropWhile_head _ _ U) as Hd.
  destruct (dropWhile_split isWhiteSpace (rev t)) as [pre [Hs _]].
  rewrite U in Hs.
  assert (Ht : t = (rev u ++ [d]) ++ rev pre).
  { rewrite <- (rev_involutive t), Hs, rev_app_distr; reflexivity. }
  simpl rev. unfold no_outer_ws; repeat split.
  - destruct (rev u); discriminate.
  - destruct t as [|c t'] eqn:T.
    + destruct (rev u); discriminate.
    + pose proof (dropWhile_head isWhiteSpace s T) as Hc.
      destruct (rev u) as [|e w]; simpl in *; injection Ht as -> _; assumption.
  - rewrite last_last; exact Hd.
Qed.


Lemma split_go_nonempty b cur s : split_go b cur s <> [].
Proof.
  revert b cur; induction s as [|c s IH]; intros b cur; simpl; [discriminate|].
  destruct (isWhiteSpace c); [destruct b; [apply IH | discriminate] | apply IH].
Qed.

Lemma join_cons sep x rest :
  rest <> [] -> join sep (x :: rest) = x ++ sep ++ join sep rest.
Proof. destruct rest; [congruence | reflexivity]. Qed.

(** Splitting on white space and joining with one space collapses each
    run of white space. *)
Lemma join_split_go s :
  (forall cur, join (lit " ") (split_go false cur s) = rev cur ++ collapse_go false s)
  /\ join (lit " ") (split_go true [] s) = collapse_go true s.
Proof.
  induction s as [|c s [IH1 IH2]]; split; intros; simpl.
  - now rewrite app_nil_r.
  - reflexivity.
  - destruct (isWhiteSpace c).
    + rewrite join_cons by apply split_go_nonempty. rewrite IH2; reflexivity.
    + rewrite IH1; simpl. rewrite <- app_assoc; reflexivity.
  - destruct (isWhiteSpace c); [exact IH2 | rewrite IH1; reflexivity].
Qed.

Lemma collapse_go_dropWhile s :
  collapse_go false (dropWhile isWhiteSpace s) = collapse_go true s.
Proof.
  induction s as [|c s IH]; simpl; [reflexivity|].
  destruct (isWhiteSpace c) eqn:E; [exact IH | simpl; rewrite E; reflexivity].
Qed.

Lemma skipn_split_go cur s :
  join (lit " ") (skipn 1 (split_go false cur s))
  = collapse_ws (rest_after_first_token s).
Proof.
  unfold collapse_ws, rest_after_first_token.
  revert cur; induction s as [|c s IH]; intros cur; simpl; [reflexivity|].
  destruct (isWhiteSpace c) eqn:E; simpl.
  - rewrite E. rewrite (proj2 (join_split_go s)), collapse_go_dropWhile; reflexivity.
  - apply IH.
Qed.

Lemma execute_args_collapse s :
  execute_args s = collapse_ws (rest_after_first_token s).
Proof. apply skipn_split_go. Qed.

(* ================================================================== *)
(** * Running the monad *)
(* ================================================================== *)

Ltac run :=
  cbn [negb truthy] in *;
  cbv beta iota zeta delta
    [bind ret throw try_catch get_state set_history set_historyIndex
     set_localStorage log host_call console_error localStorage_getItem
     localStorage_setItem Utils_query fst snd] in *;
  cbn [history historyIndex localStorage trace] in *.

(** Branch on what the host answers. *)
Ltac ask_host :=
  match goal with
  | |- context [fault ?h ?c] => destruct (fault h c) eqn:?
  | |- context [present ?h ?c] => destruct (present h c) eqn:?
  end; run.

Lemma hist_length_nonneg h : (0 <= hist_length h)%Z.
Proof. destruct h; simpl; lia. Qed.

Section HistoryFacts.

Context {B : Builtins} (h : Host).

(** [saveHistory] returns, and touches the storage slot and the trace only. *)
Lemma saveHistory_frame s :
  exists s', saveHistory h s = (Ret tt, s')
             /\ history s' = history s /\ historyIndex s' = historyIndex s.
Proof.
  unfold saveHistory; run.
  ask_host; eexists; split; try reflexivity; simpl; auto.
Qed.

(** [loadHistory] returns whatever the storage holds, and leaves the
    cursor alone. *)
Lemma loadHistory_returns s :
  exists s', loadHistory h s = (Ret tt, s') /\ historyIndex s' = historyIndex s.
Proof.
  destruct s as [hi idx [[|c saved]|] tr];
    unfold loadHistory, parse_and_slice; run;
    (ask_host; [eexists; split; reflexivity|]);
    try (eexists; split; reflexivity).
  destruct (JSON_parse (c :: saved)) as [[]|]; eexists; split; reflexivity.
Qed.

Lemma loadHistory_history s :
  let s' := snd (loadHistory h s) in
  history s' = history s
  \/ history s' = HArray []
  \/ exists saved, localStorage s = Some saved /\
       ((exists l, JSON_parse saved = Some (VArr l)
                   /\ history s' = HArray (slice_last CONFIG.maxHistoryItems l))
        \/ (exists t, JSON_parse saved = Some (VStr t)
                      /\ history s' = HString (slice_last CONFIG.maxHistoryItems t))).
Proof.
  destruct s as [hi idx [[|c saved]|] tr];
    unfold loadHistory, parse_and_slice; run;
    (ask_host; [right; left; reflexivity|]);
    try (left; reflexivity).
  destruct (JSON_parse (c :: saved)) as [[]|] eqn:P;
    cbn [snd history localStorage];
    first [ right; left; reflexivity
          | right; right; exists (c :: saved); split; [reflexivity|];
            first [ left; eexists; split; [exact P | reflexivity]
                  | right; eexists; split; [exact P | reflexivity] ] ].
Qed.

Lemma init_state s :
  exists s', loadHistory h s = (Ret tt, s')
             /\ init h s = (Ret tt, with_historyIndex s' (hist_length (history s'))).
Proof.
  destruct (loadHistory_returns s) as [s' [E _]].
  exists s'; split; [exact E|].
  unfold init; run. rewrite E. reflexivity.
Qed.

Lemma addToHistory_empty c s :
  trim c = [] -> addToHistory h c s = (Ret tt, s).
Proof. unfold addToHistory; intros ->; reflexivity. Qed.

Lemma addToHistory_string c s t :
  trim c <> [] -> history s = HString t ->
  exists e, addToHistory h c s = (Throw e, s).
Proof.
  unfold addToHistory; intros Hc Hs.
  destruct (trim c); [congruence|]; run.
  rewrite Hs. eexists; reflexivity.
Qed.

Lemma addToHistory_array c s l :
  trim c <> [] -> history s = HArray l ->
  exists s', addToHistory h c s = (Ret tt, s')
             /\ history s' = HArray (push_bounded l (trim c))
             /\ historyIndex s' = Z.of_nat (length (push_bounded l (trim c))).
Proof.
  unfold addToHistory; intros Hc Hs.
  destruct (trim c) as [|d t]; [congruence|]; run.
  rewrite Hs.
  match goal with
  | |- context [saveHistory h ?s0] =>
      destruct (saveHistory_frame s0) as [s' [E [H1 H2]]]; rewrite E
  end.
  exists s'; simpl in *; auto.
Qed.

End HistoryFacts.

Lemma slice_last_length {A} n (l : list A) :
  length (slice_last n l) = Nat.min n (length l).
Proof. unfold slice_last; rewrite length_skipn; lia. Qed.

Lemma slice_last_suffix {A} n (l : list A) :
  l = firstn (length l - n) l ++ slice_last n l.
Proof. unfold slice_last; symmetry; apply firstn_skipn. Qed.

Lemma push_bounded_length l t :
  (length l <= CONFIG.maxHistoryItems)%nat ->
  (length (push_bounded l t) <= CONFIG.maxHistoryItems)%nat
  /\ (1 <= length (push_bounded l t))%nat.
Proof.
  unfold push_bounded, CONFIG.maxHistoryItems; intros H.
  destruct (Nat.ltb_spec 50 (length (l ++ [VStr t]))) as [L|L];
    rewrite length_app in L; simpl in L.
  - destruct l as [|a l]; simpl in *; [lia|].
    rewrite length_app; simpl; lia.
  - rewrite length_app; simpl; lia.
Qed.

Lemma push_bounded_full l t :
  length l = CONFIG.maxHistoryItems ->
  push_bounded l t = tl l ++ [VStr t].
Proof.
  unfold push_bounded; intros H.
  destruct (Nat.ltb_spec CONFIG.maxHistoryItems (length (l ++ [VStr t]))) as [L|L];
    rewrite length_app in L; simpl in L; [|lia].
  destruct l; [discriminate | reflexivity].
Qed.

Lemma push_bounded_room l t :
  (length l < CONFIG.maxHistoryItems)%nat ->
  push_bounded l t = l ++ [VStr t].
Proof.
  unfold push_bounded; intros H.
  destruct (Nat.ltb_spec CONFIG.maxHistoryItems (length (l ++ [VStr t]))) as [L|L];
    rewrite length_app in L; simpl in L; [lia | reflexivity].
Qed.

Lemma push_bounded_last l t : last (push_bounded l t) VUndefined = VStr t.
Proof.
  unfold push_bounded.
  destruct l as [|a l]; [reflexivity|].
  destruct (CONFIG.maxHistoryItems <? length ((a :: l) ++ [VStr t]))%nat.
  - simpl tl. apply last_last.
  - apply last_last.
Qed.


Lemma nth_pred_length_last {A} (l : list A) d :
  nth (length l - 1) l d = last l d.
Proof.
  induction l as [|a l IH]; [reflexivity|].
  destruct l as [|b l]; [reflexivity|].
  change (nth (S (length l)) (a :: b :: l) d = last (b :: l) d).
  rewrite <- IH; simpl; rewrite Nat.sub_0_r; reflexivity.
Qed.

Lemma hist_get_entry h i :
  (0 <= i < hist_length h)%Z -> is_entry h i (hist_get h i).
Proof.
  intros [H0 H1]; unfold is_entry, hist_get; split; [exact H0|].
  destruct (Z.ltb_spec i 0); [lia|].
  destruct h as [l|s]; simpl in H1.
  - apply nth_error_nth'; lia.
  - destruct (nth_error s (Z.to_nat i)) as [c|] eqn:E.
    + exists c; auto.
    + apply nth_error_None in E; lia.
Qed.

(* ================================================================== *)
(** * The history store *)
(* ================================================================== *)

Section HistoryInvariants.

Context {B : Builtins} (h : Host).

Lemma cursor_init s : cursor_ok (snd (init h s)).
Proof.
  destruct (init_state h s) as [s' [_ E]]; rewrite E; unfold cursor_ok; simpl.
  pose proof (hist_length_nonneg (history s')). lia.
Qed.

Lemma cursor_add c s : cursor_ok s -> cursor_ok (snd (addToHistory h c s)).
Proof.
  intros H. destruct (trim c) as [|d t] eqn:T.
  - rewrite addToHistory_empty by exact T. exact H.
  - destruct (history s) as [l|u] eqn:Hs.
    + destruct (addToHistory_array h c s (l := l)) as [s' [E [H1 H2]]];
        [congruence | exact Hs |].
      rewrite E; unfold cursor_ok; simpl. rewrite H1, H2; simpl; lia.
    + destruct (addToHistory_string h c s (t := u)) as [e E];
        [congruence | exact Hs |].
      rewrite E; exact H.
Qed.

Lemma cursor_previous s : cursor_ok s -> cursor_ok (snd (getPrevious s)).
Proof.
  unfold cursor_ok, getPrevious; run. intros [H0 H1].
  destruct (Z.ltb_spec 0 (historyIndex s)); simpl; lia.
Qed.

Lemma cursor_next s : cursor_ok s -> cursor_ok (snd (getNext s)).
Proof.
  unfold cursor_ok, getNext; run. intros [H0 H1].
  destruct (Z.ltb_spec (historyIndex s) (hist_length (history s) - 1)); simpl; lia.
Qed.

(** Navigation writes the cursor only. *)
Lemma getPrevious_frame s :
  history (snd (getPrevious s)) = history s
  /\ localStorage (snd (getPrevious s)) = localStorage s
  /\ trace (snd (getPrevious s)) = trace s.
Proof.
  unfold getPrevious; run. destruct (0 <? historyIndex s)%Z; repeat split.
Qed.

Lemma getNext_frame s :
  history (snd (getNext s)) = history s
  /\ localStorage (snd (getNext s)) = localStorage s
  /\ trace (snd (getNext s)) = trace s.
Proof.
  unfold getNext; run.
  destruct (historyIndex s <? hist_length (history s) - 1)%Z; repeat split.
Qed.

Lemma bounded_load s :
  (hist_length (history s) <= 50)%Z ->
  (hist_length (history (snd (loadHistory h s))) <= 50)%Z.
Proof.
  intros H.
  destruct (loadHistory_history h s) as [E|[E|[saved [_ [[l [_ E]]|[t [_ E]]]]]]];
    rewrite E; simpl; try lia; try exact H;
    rewrite slice_last_length; unfold CONFIG.maxHistoryItems; lia.
Qed.

Lemma bounded_init s :
  (hist_length (history s) <= 50)%Z ->
  (hist_length (history (snd (init h s))) <= 50)%Z.
Proof.
  intros H. pose proof (bounded_load s H) as L.
  destruct (init_state h s) as [s' [E1 E2]]; rewrite E2.
  rewrite E1 in L. exact L.
Qed.

Lemma bounded_add c s :
  (hist_length (history s) <= 50)%Z ->
  (hist_length (history (snd (addToHistory h c s))) <= 50)%Z.
Proof.
  intros H. destruct (trim c) as [|d t] eqn:T.
  - rewrite addToHistory_empty by exact T. exact H.
  - destruct (history s) as [l|u] eqn:Hs.
    + destruct (addToHistory_array h c s (l := l)) as [s' [E [H1 _]]];
        [congruence | exact Hs |].
      rewrite E; simpl. rewrite H1; simpl. simpl in H.
      pose proof (push_bounded_length l (trim c)) as P.
      unfold CONFIG.maxHistoryItems in P. lia.
    + destruct (addToHistory_string h c s (t := u)) as [e E];
        [congruence | exact Hs |].
      rewrite E; simpl. rewrite Hs. exact H.
Qed.

(** What every operation keeps, every sequence of operations keeps. *)
Lemma run_ops_invariant (P : State -> Prop) :
  (forall s o, P s -> P (step h s o)) ->
  forall ops s, P s -> P (run_ops h ops s).
Proof.
  intros Hstep ops; unfold run_ops.
  induction ops as [|o ops IH]; intros s Hs; simpl; [exact Hs|].
  apply IH, Hstep, Hs.
Qed.

Lemma cursor_step s o : cursor_ok s -> cursor_ok (step h s o).
Proof.
  destruct o; simpl; [apply cursor_add | apply cursor_previous | apply cursor_next].
Qed.

Lemma bounded_step s o :
  (hist_length (history s) <= 50)%Z -> (hist_length (history (step h s o)) <= 50)%Z.
Proof.
  destruct o; simpl.
  - apply bounded_add.
  - rewrite (proj1 (getPrevious_frame s)); auto.
  - rewrite (proj1 (getNext_frame s)); auto.
Qed.

End HistoryInvariants.

(** C3: the cursor is in the range [0, length] after [init], and each of
    [addToHistory], [getPrevious] and [getNext] keeps it there, whatever
    the host does (storage that throws, malformed stored content) and
    whether the operation returns or throws; so it is in range after
    [init] and any sequence of these operations. *)
Theorem cursor_in_range {B : Builtins} (h : Host) :
  (forall s, cursor_ok (snd (init h s)))
  /\ (forall c s, cursor_ok s -> cursor_ok (snd (addToHistory h c s)))
  /\ (forall s, cursor_ok s -> cursor_ok (snd (getPrevious s)))
  /\ (forall s, cursor_ok s -> cursor_ok (snd (getNext s)))
  /\ (forall stored ops,
        cursor_ok (run_ops h ops (snd (init h (initial stored))))).
Proof.
  split; [exact (cursor_init h)|].
  split; [exact (cursor_add h)|].
  split; [exact cursor_previous|].
  split; [exact cursor_next|].
  intros stored ops.
  apply run_ops_invariant; [apply cursor_step | apply cursor_init].
Qed.

Lemma cursor_in_range_witness :
  cursor_ok (snd (init (B := Reference.builtins) Reference.quiet
                    (initial (Some Reference.stored_ab))))
  /\ cursor_ok
       (snd (getNext
          (snd (getPrevious
             (snd (addToHistory (B := Reference.builtins) Reference.quiet (lit "ls")
                (snd (init (B := Reference.builtins) Reference.quiet
                        (initial None))))))))).
Proof.
  destruct (cursor_in_range (B := Reference.builtins) Reference.quiet)
    as [Hinit [Hadd [Hprev [Hnext _]]]].
  split; [apply Hinit|].
  apply Hnext, Hprev, Hadd, Hinit.
Defined.

(** C6: with the cursor in [0, length], [getPrevious] moves the cursor
    down and returns the entry it then points to when the cursor is
    positive, and otherwise returns the empty string with the cursor at 0;
    [getNext] moves it up and returns the entry it then points to when the
    cursor is below [length - 1], and otherwise puts the cursor at
    [length] and returns the empty string. *)
Theorem navigation_spec (s : State) :
  cursor_ok s ->
  ((0 < historyIndex s)%Z ->
     exists v, getPrevious s = (Ret v, with_historyIndex s (historyIndex s - 1))
               /\ is_entry (history s) (historyIndex s - 1) v)
  /\ (~ (0 < historyIndex s)%Z ->
        getPrevious s = (Ret (VStr (lit "")), s) /\ historyIndex s = 0%Z)
  /\ ((historyIndex s < hist_length (history s) - 1)%Z ->
        exists v, getNext s = (Ret v, with_historyIndex s (historyIndex s + 1))
                  /\ is_entry (history s) (historyIndex s + 1) v)
  /\ (~ (historyIndex s < hist_length (history s) - 1)%Z ->
        getNext s
        = (Ret (VStr (lit "")), with_historyIndex s (hist_length (history s)))).
Proof.
  intros [H0 H1]; split; [|split; [|split]]; intros H.
  - exists (hist_get (history s) (historyIndex s - 1)); split.
    + unfold getPrevious; run.
      destruct (Z.ltb_spec 0 (historyIndex s)); [reflexivity | lia].
    + apply hist_get_entry; lia.
  - split; [|lia].
    unfold getPrevious; run.
    destruct (Z.ltb_spec 0 (historyIndex s)); [lia | reflexivity].
  - exists (hist_get (history s) (historyIndex s + 1)); split.
    + unfold getNext; run.
      destruct (Z.ltb_spec (historyIndex s) (hist_length (history s) - 1));
        [reflexivity | lia].
    + apply hist_get_entry; lia.
  - unfold getNext; run.
    destruct (Z.ltb_spec (historyIndex s) (hist_length (history s) - 1));
      [lia | reflexivity].
Qed.

Lemma navigation_spec_witness :
  cursor_ok Reference.two_entries
  /\ getPrevious Reference.two_entries
     = (Ret (VStr (lit "help")), with_historyIndex Reference.two_entries 1)
  /\ getNext Reference.two_entries
     = (Ret (VStr (lit "")), with_historyIndex Reference.two_entries 2).
Proof.
  assert (H : cursor_ok Reference.two_entries) by (unfold cursor_ok; simpl; lia).
  destruct (navigation_spec H) as [P [_ [_ N]]].
  split; [exact H|split].
  - destruct P as [v [E [_ V]]]; [simpl; lia|].
    simpl in V; injection V as <-. exact E.
  - apply N; simpl; lia.
Defined.

(** C9: [getPrevious] and [getNext] leave the list of stored commands, the
    storage slot and the trace of host calls as they were: only the cursor
    changes. *)
Theorem navigation_frame (s : State) :
  (history (snd (getPrevious s)) = history s
   /\ localStorage (snd (getPrevious s)) = localStorage s
   /\ trace (snd (getPrevious s)) = trace s)
  /\ (history (snd (getNext s)) = history s
      /\ localStorage (snd (getNext s)) = localStorage s
      /\ trace (snd (getNext s)) = trace s).
Proof. split; [apply getPrevious_frame | apply getNext_frame]. Qed.

(** C4: the list never grows past the maximum of 50.  What [loadHistory]
    reads from a stored array is its last 50 entries (all of them when
    there are fewer), in their order; [loadHistory], [init] and
    [addToHistory] keep a list that is within the maximum within it, so the
    list is within it after [init] and any sequence of operations; and on a
    list at the maximum [addToHistory] drops the oldest entry and appends
    the new one, the survivors keeping their order, so that the length
    stays at the maximum. *)
Theorem history_bounded {B : Builtins} (h : Host) :
  (forall s saved l,
     fault h (GetItem CONFIG.storageKey) = None ->
     localStorage s = Some saved -> saved <> [] ->
     JSON_parse saved = Some (VArr l) ->
     history (snd (loadHistory h s)) = HArray (slice_last 50 l)
     /\ l = firstn (length l - 50) l ++ slice_last 50 l
     /\ length (slice_last 50 l) = Nat.min 50 (length l))
  /\ (forall s, (hist_length (history s) <= 50)%Z ->
                (hist_length (history (snd (loadHistory h s))) <= 50)%Z
                /\ (hist_length (history (snd (init h s))) <= 50)%Z)
  /\ (forall c s, (hist_length (history s) <= 50)%Z ->
                  (hist_length (history (snd (addToHistory h c s))) <= 50)%Z)
  /\ (forall stored ops,
        (hist_length
           (history (run_ops h ops (snd (init h (initial stored))))) <= 50)%Z)
  /\ (forall c s l,
        history s = HArray l -> length l = 50%nat -> trim c <> [] ->
        history (snd (addToHistory h c s)) = HArray (tl l ++ [VStr (trim c)])
        /\ length (tl l ++ [VStr (trim c)]) = 50%nat).
Proof.
  split; [|split; [|split; [|split]]].
  - intros s saved l Hf Hs Hne Hp.
    split; [|split; [apply slice_last_suffix | apply slice_last_length]].
    destruct s as [hi idx ls tr]; simpl in Hs; subst ls.
    destruct saved as [|c saved]; [congruence|].
    unfold loadHistory, parse_and_slice; run.
    rewrite Hf; run. rewrite Hp. reflexivity.
  - intros s H; split; [apply bounded_load | apply bounded_init]; exact H.
  - intros c s; apply bounded_add.
  - intros stored ops.
    apply (run_ops_invariant h (fun s => (hist_length (history s) <= 50)%Z)).
    + intros s o; apply bounded_step.
    + apply bounded_init; simpl; lia.
  - intros c s l Hs Hl Hc.
    destruct (addToHistory_array h c s Hc Hs) as [s' [E [H1 _]]].
    rewrite E; simpl. rewrite H1, push_bounded_full by exact Hl.
    split; [reflexivity|].
    rewrite length_app; destruct l; simpl in *; [discriminate | lia].
Qed.

Lemma history_bounded_witness :
  history (snd (loadHistory (B := Reference.builtins) Reference.quiet
                  (initial (Some Reference.stored_ab))))
  = HArray [VStr (lit "a"); VStr (lit "b")]
  /\ history (snd (addToHistory (B := Reference.builtins) Reference.quiet
                     (lit " help ") Reference.full))
     = HArray (repeat (VStr (lit "ls")) 49 ++ [VStr (lit "help")])
  /\ (hist_length
        (history (snd (addToHistory (B := Reference.builtins) Reference.quiet
                         (lit " help ") Reference.full))) <= 50)%Z.
Proof.
  destruct (history_bounded (B := Reference.builtins) Reference.quiet)
    as [Hload [_ [Hadd [_ Hfull]]]].
  split; [|split].
  - apply (Hload (initial (Some Reference.stored_ab)) Reference.stored_ab
             [VStr (lit "a"); VStr (lit "b")]);
      [reflexivity | reflexivity | discriminate | reflexivity].
  - apply (Hfull (lit " help ") Reference.full (repeat (VStr (lit "ls")) 50));
      [reflexivity | reflexivity | discriminate].
  - apply Hadd; simpl; lia.
Defined.

Section TrimmedEntries.

Context {B : Builtins} (h : Host).






End TrimmedEntries.




(* ================================================================== *)
(** * The interpreter *)
(* ================================================================== *)

Section ExecuteFacts.

Context {B : Builtins} (h : Host).

Lemma execute_cmd_quit : execute_cmd (lit ":q") = lit ":q".
Proof.
  unfold execute_cmd, execute_parts.
  change (nth 0 (split_ws (lit ":q")) []) with (lit ":q").
  rewrite toLowerCase_ascii by reflexivity. reflexivity.
Qed.

Lemma execute_cmd_empty : execute_cmd [] = [].
Proof.
  unfold execute_cmd, execute_parts; simpl.
  rewrite toLowerCase_ascii by reflexivity. reflexivity.
Qed.

Lemma execute_nonempty input s :
  trim input <> [] ->
  execute h input s
  = dispatch h (trim input) (execute_cmd (trim input)) (execute_args (trim input)) s.
Proof. unfold execute; destruct (trim input); [congruence | reflexivity]. Qed.

Lemma execute_empty input s :
  trim input = [] -> execute h input s = (Ret VNull, s).
Proof. unfold execute; intros ->; reflexivity. Qed.

Lemma get_property_own own k v :
  assoc k own = Some v -> get_property own k = v.
Proof. unfold get_property; intros ->; reflexivity. Qed.

(** A key bound to a handler other than quit is dispatched through the
    registry, inside the [try]. *)
Lemma dispatch_generic input c :
  assoc (execute_cmd (trim input)) commands = Some (VFun (Handler c)) ->
  c <> quit ->
  trim input <> []
  /\ eqb (trim input) (lit ":q") || eqb (execute_cmd (trim input)) (lit ":q") = false
  /\ get_property commands (execute_cmd (trim input)) = VFun (Handler c).
Proof.
  intros Hc Hq.
  assert (Hcmd : execute_cmd (trim input) <> lit ":q").
  { intros E; rewrite E in Hc. vm_compute in Hc. congruence. }
  split; [|split].
  - intros E; rewrite E, execute_cmd_empty in Hc. discriminate.
  - apply orb_false_iff; split; apply eqb_neq; [|exact Hcmd].
    intros E; apply Hcmd; rewrite E; apply execute_cmd_quit.
  - apply get_property_own; exact Hc.
Qed.

(** [dispatch] never returns [null]. *)
Lemma dispatch_not_null trimmed cmd args s :
  fst (dispatch h trimmed cmd args s) <> Ret VNull.
Proof.
  unfold dispatch.
  destruct (eqb trimmed (lit ":q") || eqb cmd (lit ":q")).
  - change (call h (get_property commands (lit ":q")) (lit ":q") None)
      with (handler h quit None).
    cbn [handler]; unfold bind at 1.
    destruct (closeTerminal h s) as [[u|e] s']; simpl; discriminate.
  - destruct (truthy (get_property commands cmd)); [|simpl; discriminate].
    unfold try_catch, bind at 1.
    destruct (call h (get_property commands cmd) cmd (Some args) s) as [[v|e] s'].
    + unfold ret; simpl. destruct (truthy v) eqn:T; [|discriminate].
      intros E; injection E as ->. discriminate.
    + run; simpl; discriminate.
Qed.

End ExecuteFacts.

(** C1, as the code has it: for an input that is not blank, the argument
    string of [execute] is what remains after the first token of the
    trimmed input with each run of white space replaced by one space (the
    remaining tokens rejoined with single spaces).  The handler found in
    the registry is called with that string, inside the [try]; for [cat],
    the one handler that reads it, the result shows it: the file looked up
    and the name in the error text are that string, trimmed.  The quit
    handler is called with no argument, whatever follows [:q] on the
    line. *)
Theorem execute_args_rejoined {B : Builtins} (h : Host)
    (input : jsstring) (s : State) :
  trim input <> [] ->
  (forall c,
     assoc (execute_cmd (trim input)) commands = Some (VFun (Handler c)) ->
     c <> quit ->
     execute h input s
     = try_catch
         (result <- handler h c
                      (Some (collapse_ws (rest_after_first_token (trim input)))) ;;
          ret (if truthy result then result
               else CommandResult (lit "info") (VStr (lit ""))))
         (fun error =>
            console_error (lit "Error executing command: "
                           ++ execute_cmd (trim input)) error ;;
            ret (CommandResult (lit "error")
                   (VStr (lit "Error: " ++ message error)))) s)
  /\ (execute_cmd (trim input) = lit "cat" ->
      execute h input s
      = (Ret (if truthy (get_property FILE_CONTENT_object
                           (trim (collapse_ws (rest_after_first_token (trim input)))))
              then CommandResult (lit "info")
                     (get_property FILE_CONTENT_object
                        (trim (collapse_ws (rest_after_first_token (trim input)))))
              else CommandResult (lit "error")
                     (VStr (lit "cat: "
                            ++ trim (collapse_ws (rest_after_first_token (trim input)))
                            ++ lit ": No such file or directory"))),
         s))
  /\ (eqb (trim input) (lit ":q") || eqb (execute_cmd (trim input)) (lit ":q") = true ->
      execute h input s = handler h quit None s
      /\ execute h input s = execute h (lit ":q") s).
Proof.
  intros H. rewrite execute_nonempty by exact H.
  rewrite execute_args_collapse.
  assert (G : forall c,
             assoc (execute_cmd (trim input)) commands = Some (VFun (Handler c)) ->
             c <> quit ->
             dispatch h (trim input) (execute_cmd (trim input))
               (collapse_ws (rest_after_first_token (trim input))) s
             = try_catch
                 (result <- handler h c
                              (Some (collapse_ws (rest_after_first_token (trim input)))) ;;
                  ret (if truthy result then result
                       else CommandResult (lit "info") (VStr (lit ""))))
                 (fun error =>
                    console_error (lit "Error executing command: "
                                   ++ execute_cmd (trim input)) error ;;
                    ret (CommandResult (lit "error")
                           (VStr (lit "Error: " ++ message error)))) s).
  { intros c Hc Hq.
    destruct (dispatch_generic input Hc Hq) as [_ [Hnq Hget]].
    unfold dispatch. rewrite Hnq, Hget. reflexivity. }
  split; [exact G|]. split.
  - intros Hcat.
    rewrite (G cat); [| rewrite Hcat; reflexivity | discriminate].
    unfold try_catch, bind at 1. cbn [handler].
    destruct (truthy (get_property FILE_CONTENT_object
                        (trim (collapse_ws (rest_after_first_token (trim input))))));
      reflexivity.
  - intros Hq.
    assert (Q : forall args,
               dispatch h (trim input) (execute_cmd (trim input)) args s
               = handler h quit None s).
    { intros args. unfold dispatch. rewrite Hq. reflexivity. }
    split; [apply Q|].
    rewrite Q. rewrite execute_nonempty by discriminate.
    unfold dispatch. change (trim (lit ":q")) with (lit ":q").
    rewrite eqb_refl. reflexivity.
Qed.

Lemma execute_args_rejoined_witness :
  trim (lit " cat  a   b ") <> []
  /\ collapse_ws (rest_after_first_token (trim (lit " cat  a   b "))) = lit "a b"
  /\ execute (B := Reference.builtins) Reference.quiet (lit " cat  a   b ") (initial None)
     = (Ret (CommandResult (lit "error")
               (VStr (lit "cat: a b: No such file or directory"))),
        initial None)
  /\ execute (B := Reference.builtins) Reference.quiet (lit ":Q  now") (initial None)
     = handler Reference.quiet quit None (initial None).
Proof.
  split; [discriminate|]. split; [reflexivity|].
  destruct (@execute_args_rejoined Reference.builtins Reference.quiet
              (lit " cat  a   b ") (initial None)) as [_ [Hcat _]];
    [discriminate|].
  destruct (@execute_args_rejoined Reference.builtins Reference.quiet
              (lit ":Q  now") (initial None)) as [_ [_ Hq]];
    [discriminate|].
  split.
  - rewrite Hcat by (vm_compute; reflexivity). vm_compute; reflexivity.
  - apply Hq. vm_compute; reflexivity.
Defined.

(** On ["cat a   b"] the handler receives ["a b"], not ["a   b"]: the three
    spaces between the tokens are not preserved. *)
Lemma execute_args_not_verbatim :
  rest_after_first_token (trim (lit "cat a   b")) = lit "a   b"
  /\ execute_args (trim (lit "cat a   b")) <> lit "a   b"
  /\ fst (execute (B := Reference.builtins) Reference.quiet (lit "cat a   b")
            (initial None))
     = Ret (CommandResult (lit "error")
              (VStr (lit "cat: a b: No such file or directory")))
  /\ fst (execute (B := Reference.builtins) Reference.quiet (lit "cat a   b")
            (initial None))
     <> fst (handler Reference.quiet cat (Some (lit "a   b")) (initial None)).
Proof.
  split; [reflexivity|]. split; [discriminate|].
  split; vm_compute; [reflexivity | discriminate].
Qed.

(** C2, as the code has it: when the command is a key of the registry
    other than [':q'] and its handler throws, [execute] catches the fault,
    logs it, and returns a result of kind [error] whose text is ["Error: "]
    followed by the fault's message. *)
Theorem execute_catches_fault {B : Builtins} (h : Host)
    (input : jsstring) (c : command) (e : Error) (s s' : State) :
  assoc (execute_cmd (trim input)) commands = Some (VFun (Handler c)) ->
  c <> quit ->
  handler h c (Some (execute_args (trim input))) s = (Throw e, s') ->
  execute h input s
  = (Ret (CommandResult (lit "error") (VStr (lit "Error: " ++ message e))),
     {| history := history s';
        historyIndex := historyIndex s';
        localStorage := localStorage s';
        trace := trace s'
                 ++ [ConsoleError
                       (lit "Error executing command: " ++ execute_cmd (trim input)) e] |}).
Proof.
  intros Hc Hq He.
  destruct (dispatch_generic input Hc Hq) as [Hne [Hnq Hget]].
  rewrite execute_nonempty by exact Hne.
  unfold dispatch. rewrite Hnq, Hget. cbn [truthy call].
  unfold try_catch, bind at 1. rewrite He. reflexivity.
Qed.

Lemma execute_catches_fault_witness :
  execute (B := Reference.builtins) Reference.blocking (lit "GitHub now") (initial None)
  = (Ret (CommandResult (lit "error") (VStr (lit "Error: blocked"))),
     {| history := HArray [];
        historyIndex := (-1)%Z;
        localStorage := None;
        trace := [WindowOpen LINKS_github (lit "_blank") (lit "noopener,noreferrer");
                  ConsoleError (lit "Error executing command: github")
                    Reference.popup_blocked] |}).
Proof.
  rewrite (@execute_catches_fault Reference.builtins Reference.blocking
             (lit "GitHub now") github Reference.popup_blocked
             (initial None)
             {| history := HArray []; historyIndex := (-1)%Z;
                localStorage := None;
                trace := [WindowOpen LINKS_github (lit "_blank")
                            (lit "noopener,noreferrer")] |}).
  - vm_compute; reflexivity.
  - vm_compute; reflexivity.
  - discriminate.
  - vm_compute; reflexivity.
Defined.

(** Under a host whose [window.open] throws an error with message
    ["blocked"], [execute("github")] returns the text ["Error: blocked"],
    which is not the message; and under a host whose
    [document.querySelector] throws, the fault of the quit handler leaves
    [execute(":q")] uncaught. *)
Lemma fault_text_prefixed_and_quit_uncaught :
  (fst (handler Reference.blocking github (Some (lit "")) (initial None))
   = Throw Reference.popup_blocked
   /\ fst (execute (B := Reference.builtins) Reference.blocking (lit "github")
             (initial None))
      = Ret (CommandResult (lit "error") (VStr (lit "Error: blocked")))
   /\ fst (execute (B := Reference.builtins) Reference.blocking (lit "github")
             (initial None))
      <> Ret (CommandResult (lit "error") (VStr (message Reference.popup_blocked))))
  /\ (fst (handler Reference.headless quit None (initial None))
      = Throw Reference.no_document
      /\ fst (execute (B := Reference.builtins) Reference.headless (lit ":q")
                (initial None))
         = Throw Reference.no_document).
Proof.
  repeat split; vm_compute; solve [reflexivity | discriminate].
Qed.

Section Inherited.

Context {B : Builtins} (h : Host).

Lemma execute_cmd_constructor : execute_cmd (lit "constructor") = lit "constructor".
Proof.
  unfold execute_cmd, execute_parts.
  change (nth 0 (split_ws (lit "constructor")) []) with (lit "constructor").
  rewrite toLowerCase_ascii by reflexivity. reflexivity.
Qed.

Lemma execute_cmd_proto : execute_cmd (lit "__proto__") = lit "__proto__".
Proof.
  unfold execute_cmd, execute_parts.
  change (nth 0 (split_ws (lit "__proto__")) []) with (lit "__proto__").
  rewrite toLowerCase_ascii by reflexivity. reflexivity.
Qed.

Lemma execute_cmd_cat_constructor :
  execute_cmd (lit "cat constructor") = lit "cat".
Proof.
  unfold execute_cmd, execute_parts.
  change (nth 0 (split_ws (lit "cat constructor")) []) with (lit "cat").
  rewrite toLowerCase_ascii by reflexivity. reflexivity.
Qed.

(** A name that is neither a key of the registry nor a property of
    [Object.prototype] is reported as not found. *)
Lemma execute_not_found input s :
  trim input <> [] ->
  get_property commands (execute_cmd (trim input)) = VUndefined ->
  execute h input s
  = (Ret (CommandResult (lit "error")
            (VStr (lit "Command not found: " ++ execute_cmd (trim input)
                   ++ lit ". Type 'help' for available commands."))), s).
Proof.
  intros Hne Hu.
  assert (Hcmd : execute_cmd (trim input) <> lit ":q").
  { intros E; rewrite E in Hu. vm_compute in Hu. discriminate. }
  rewrite execute_nonempty by exact Hne.
  unfold dispatch.
  replace (eqb (trim input) (lit ":q") || eqb (execute_cmd (trim input)) (lit ":q"))
    with false.
  - rewrite Hu. reflexivity.
  - symmetry; apply orb_false_iff; split; apply eqb_neq; [|exact Hcmd].
    intros E; apply Hcmd; rewrite E; apply execute_cmd_quit.
Qed.

(** [constructor] reads the inherited [Object] function; called with the
    (empty) argument string it makes a String object. *)
Lemma execute_constructor_object s :
  execute h (lit "constructor") s = (Ret (VStringObject (lit "")), s).
Proof.
  rewrite execute_nonempty by discriminate.
  change (trim (lit "constructor")) with (lit "constructor").
  rewrite execute_cmd_constructor. reflexivity.
Qed.

(** [__proto__] reads [Object.prototype], which cannot be called: the
    [TypeError] is caught. *)
Lemma execute_proto s :
  fst (execute h (lit "__proto__") s)
  = Ret (CommandResult (lit "error")
           (VStr (lit "Error: " ++ engineMessage h (lit "__proto__")))).
Proof.
  rewrite execute_nonempty by discriminate.
  change (trim (lit "__proto__")) with (lit "__proto__").
  rewrite execute_cmd_proto. reflexivity.
Qed.

(** The names in the table give their content. *)
Lemma cat_known_file args name content s :
  trim args = name -> In (name, content) FILE_CONTENT ->
  handler h cat (Some args) s = (Ret (CommandResult (lit "info") (VStr content)), s).
Proof.
  intros Ht Hin. cbn [handler]. rewrite Ht.
  destruct Hin as [E|[E|[E|[]]]]; injection E as <- <-;
    vm_compute; reflexivity.
Qed.

(** The names that neither the table nor [Object.prototype] has give the
    error. *)
Lemma cat_missing_file args s :
  get_property FILE_CONTENT_object (trim args) = VUndefined ->
  handler h cat (Some args) s
  = (Ret (CommandResult (lit "error")
            (VStr (lit "cat: " ++ trim args ++ lit ": No such file or directory"))), s).
Proof. intros H. cbn [handler]. rewrite H. reflexivity. Qed.

End Inherited.

(** C5 at the input ["constructor"]: the name is not a key of the registry,
    yet [commands["constructor"]] is the inherited [Object] function, so
    [execute] calls it and returns the String object it makes, not the
    "Command not found" result. *)
Theorem execute_constructor {B : Builtins} (h : Host) (s : State) :
  assoc (lit "constructor") commands = None
  /\ execute h (lit "constructor") s = (Ret (VStringObject (lit "")), s)
  /\ fst (execute h (lit "constructor") s)
     <> Ret (CommandResult (lit "error")
               (VStr (lit "Command not found: constructor. Type 'help' for available commands."))).
Proof.
  split; [reflexivity|]. split; [apply execute_constructor_object|].
  rewrite execute_constructor_object; discriminate.
Qed.

(** C7 at the argument ["constructor"]: the name is not in the table, yet
    [FILE_CONTENT["constructor"]] is the inherited [Object] function, so the
    [cat] handler returns a result of kind [info] whose content is that
    function, not the "No such file or directory" error; [execute] passes
    it on. *)
Theorem cat_constructor {B : Builtins} (h : Host) (s : State) :
  assoc (lit "constructor") FILE_CONTENT = None
  /\ handler h cat (Some (lit "constructor")) s
     = (Ret (CommandResult (lit "info") (VFun (Builtin Object_constructor))), s)
  /\ execute h (lit "cat constructor") s
     = (Ret (CommandResult (lit "info") (VFun (Builtin Object_constructor))), s).
Proof.
  split; [reflexivity|]. split; [reflexivity|].
  rewrite execute_nonempty by discriminate.
  change (trim (lit "cat constructor")) with (lit "cat constructor").
  rewrite execute_cmd_cat_constructor. reflexivity.
Qed.

(** C8: [execute] returns [null] exactly when the input is blank; but at
    the input ["constructor"] what it returns is a String object, which is
    not [null] and not a CommandResult either. *)
Theorem execute_null_iff_blank {B : Builtins} (h : Host) :
  (forall input s, fst (execute h input s) = Ret VNull <-> trim input = [])
  /\ (forall s, exists v,
        execute h (lit "constructor") s = (Ret v, s)
        /\ v <> VNull /\ ~ is_CommandResult v).
Proof.
  split.
  - intros input s; split.
    + intros H. destruct (trim input) as [|d t] eqn:T; [reflexivity|exfalso].
      rewrite execute_nonempty in H by congruence.
      exact (dispatch_not_null _ _ _ _ _ H).
    + intros H; rewrite execute_empty by exact H. reflexivity.
  - intros s. exists (VStringObject (lit "")).
    split; [apply execute_constructor_object|].
    split; [discriminate|].
    intros [kind [text [_ E]]]. discriminate E.
Qed.

(* ================================================================== *)
(** * Further properties of the interpreter *)
(* ================================================================== *)

Lemma extends_refl s : extends s s.
Proof. repeat split; exists []; symmetry; apply app_nil_r. Qed.

Lemma extends_trans s1 s2 s3 : extends s1 s2 -> extends s2 s3 -> extends s1 s3.
Proof.
  intros [H1 [H2 [H3 [c1 H4]]]] [K1 [K2 [K3 [c2 K4]]]].
  repeat split; try congruence.
  exists (c1 ++ c2). rewrite K4, H4, app_assoc. reflexivity.
Qed.

Lemma trace_only_ret {A} (a : A) : trace_only (ret a).
Proof. intros s; apply extends_refl. Qed.

Lemma trace_only_throw {A} e : trace_only (@throw A e).
Proof. intros s; apply extends_refl. Qed.

Lemma trace_only_bind {A C} (m : M A) (f : A -> M C) :
  trace_only m -> (forall a, trace_only (f a)) -> trace_only (bind m f).
Proof.
  intros Hm Hf s; unfold bind. specialize (Hm s).
  destruct (m s) as [[a|e] s']; simpl in *; [|exact Hm].
  exact (extends_trans Hm (Hf a s')).
Qed.

Lemma trace_only_try_catch {A} (m : M A) (k : Error -> M A) :
  trace_only m -> (forall e, trace_only (k e)) -> trace_only (try_catch m k).
Proof.
  intros Hm Hk s; unfold try_catch. specialize (Hm s).
  destruct (m s) as [[a|e] s']; simpl in *; [exact Hm|].
  exact (extends_trans Hm (Hk e s')).
Qed.

Lemma trace_only_log c : trace_only (log c).
Proof. intros s; repeat split. exists [c]; reflexivity. Qed.

Section TraceOnly.

Context {B : Builtins} (h : Host).

Lemma trace_only_host_call c : trace_only (host_call h c).
Proof.
  unfold host_call. apply trace_only_bind; [apply trace_only_log|].
  intros _; destruct (fault h c); [apply trace_only_throw | apply trace_only_ret].
Qed.

Lemma trace_only_Utils_query sel : trace_only (Utils_query h sel).
Proof.
  unfold Utils_query. apply trace_only_bind; [apply trace_only_host_call|].
  intros _; apply trace_only_ret.
Qed.

Lemma trace_only_closeTerminal : trace_only (closeTerminal h).
Proof.
  unfold closeTerminal. apply trace_only_bind; [apply trace_only_Utils_query|].
  intros [|]; simpl; [|apply trace_only_ret].
  repeat (apply trace_only_bind; [apply trace_only_host_call|intros _]).
  apply trace_only_host_call.
Qed.

Lemma trace_only_handler c args : trace_only (handler h c args).
Proof.
  destruct c; cbn [handler];
    try apply trace_only_ret;
    try (apply trace_only_bind; [apply trace_only_host_call|];
         intros _; apply trace_only_ret).
  - apply trace_only_bind; [apply trace_only_Utils_query|].
    intros b. apply trace_only_bind; [|intros _; apply trace_only_ret].
    destruct b; [apply trace_only_host_call | apply trace_only_ret].
  - destruct args as [a|]; [|apply trace_only_throw].
    destruct (truthy _); apply trace_only_ret.
  - apply trace_only_bind; [apply trace_only_closeTerminal|].
    intros _; apply trace_only_ret.
Qed.

Lemma trace_only_call f expr args : trace_only (call h f expr args).
Proof.
  destruct f as [| | | | | | | |[c|b]|]; cbn [call];
    try apply trace_only_throw; [apply trace_only_handler|].
  destruct b; cbn [call_builtin];
    first [apply trace_only_ret | apply trace_only_throw].
Qed.

Lemma trace_only_dispatch trimmed cmd args :
  trace_only (dispatch h trimmed cmd args).
Proof.
  unfold dispatch.
  destruct (eqb trimmed (lit ":q") || eqb cmd (lit ":q")); [apply trace_only_call|].
  destruct (truthy (get_property commands cmd)); [|apply trace_only_ret].
  apply trace_only_try_catch.
  - apply trace_only_bind; [apply trace_only_call | intros r; apply trace_only_ret].
  - intros e. unfold console_error.
    apply trace_only_bind; [apply trace_only_log | intros _; apply trace_only_ret].
Qed.

Lemma trace_only_execute input : trace_only (execute h input).
Proof.
  unfold execute. destruct (negb (truthy (VStr (trim input))));
    [apply trace_only_ret | apply trace_only_dispatch].
Qed.

End TraceOnly.

(** X1: [execute] never touches the history list, the cursor or the
    storage slot, whatever the input and the host: the state it leaves
    differs from the one it was given by host calls appended to the trace,
    also when it throws. *)
Theorem execute_frame {B : Builtins} (h : Host) (input : jsstring) (s : State) :
  history (snd (execute h input s)) = history s
  /\ historyIndex (snd (execute h input s)) = historyIndex s
  /\ localStorage (snd (execute h input s)) = localStorage s
  /\ exists calls, trace (snd (execute h input s)) = trace s ++ calls.
Proof. exact (trace_only_execute h input s). Qed.

Section ExecuteOutcomes.

Context {B : Builtins} (h : Host).

(** A fault of [closeTerminal] is the fault of one of its host calls. *)
Lemma closeTerminal_throws s e :
  fst (closeTerminal h s) = Throw e ->
  exists c, In c closeTerminal_calls /\ fault h c = Some e.
Proof.
  unfold closeTerminal, closeTerminal_calls; run.
  destruct (fault h (QuerySelector SELECTORS.terminalContainer)) as [e0|] eqn:F0; run.
  { intros E; injection E as <-. eexists; split; [left; reflexivity | exact F0]. }
  destruct (present h SELECTORS.terminalContainer); run; [|discriminate].
  destruct (fault h (SetStyle SELECTORS.terminalContainer (lit "transform")
                       (lit "translateY(100%)"))) as [e1|] eqn:F1; run.
  { intros E; injection E as <-.
    eexists; split; [right; left; reflexivity | exact F1]. }
  destruct (fault h (SetStyle SELECTORS.terminalContainer (lit "opacity") (lit "0")))
    as [e2|] eqn:F2; run.
  { intros E; injection E as <-.
    eexists; split; [right; right; left; reflexivity | exact F2]. }
  destruct (fault h (SetTimeout CONFIG.terminalCloseDelay)) as [e3|] eqn:F3; run.
  { intros E; injection E as <-.
    eexists; split; [right; right; right; left; reflexivity | exact F3]. }
  discriminate.
Qed.

Lemma dispatch_throws trimmed cmd args s e :
  fst (dispatch h trimmed cmd args s) = Throw e ->
  eqb trimmed (lit ":q") || eqb cmd (lit ":q") = true
  /\ fst (closeTerminal h s) = Throw e.
Proof.
  unfold dispatch.
  destruct (eqb trimmed (lit ":q") || eqb cmd (lit ":q")).
  - change (call h (get_property commands (lit ":q")) (lit ":q") None)
      with (handler h quit None).
    cbn [handler]; unfold bind at 1.
    destruct (closeTerminal h s) as [[u|e'] s']; simpl; [discriminate|].
    intros E; injection E as <-; split; reflexivity.
  - destruct (truthy (get_property commands cmd)); [|simpl; discriminate].
    unfold try_catch, bind at 1.
    destruct (call h (get_property commands cmd) cmd (Some args) s) as [[v|e'] s'];
      run; simpl; discriminate.
Qed.

End ExecuteOutcomes.

(** X2: the only fault that leaves [execute] is a fault of a host call of
    [closeTerminal] under the quit command: when [execute] throws, the
    trimmed input or its lower-cased first token is [':q'] and the error is
    the one the host raised at one of [closeTerminal]'s four calls.  Every
    other handler fault, and a call of an inherited property that cannot
    be called, ends in a returned result. *)
Theorem execute_throws_only_from_quit {B : Builtins} (h : Host)
    (input : jsstring) (s : State) (e : Error) :
  fst (execute h input s) = Throw e ->
  eqb (trim input) (lit ":q") || eqb (execute_cmd (trim input)) (lit ":q") = true
  /\ exists c, In c closeTerminal_calls /\ fault h c = Some e.
Proof.
  intros H.
  destruct (trim input) as [|d t] eqn:T.
  - rewrite execute_empty in H by exact T. discriminate.
  - rewrite execute_nonempty in H by congruence. rewrite T in H.
    apply dispatch_throws in H; destruct H as [Hq Hc].
    split; [exact Hq | exact (closeTerminal_throws _ _ Hc)].
Qed.

Lemma execute_throws_only_from_quit_witness :
  fst (execute (B := Reference.builtins) Reference.headless (lit " :Q ") (initial None))
  = Throw Reference.no_document
  /\ exists c, In c closeTerminal_calls
               /\ fault Reference.headless c = Some Reference.no_document.
Proof.
  assert (H : fst (execute (B := Reference.builtins) Reference.headless
                     (lit " :Q ") (initial None))
              = Throw Reference.no_document) by (vm_compute; reflexivity).
  split; [exact H|].
  exact (proj2 (execute_throws_only_from_quit (B := Reference.builtins)
                  Reference.headless (lit " :Q ") (initial None) H)).
Defined.

Section ExecuteShape.

Context {B : Builtins} (h : Host).

(** The test for the quit command comes down to the command name. *)
Lemma quit_test trimmed :
  eqb trimmed (lit ":q") || eqb (execute_cmd trimmed) (lit ":q")
  = eqb (execute_cmd trimmed) (lit ":q").
Proof.
  destruct (eqb trimmed (lit ":q")) eqn:E; [|reflexivity].
  apply eqb_eq in E; subst trimmed.
  rewrite execute_cmd_quit. reflexivity.
Qed.

Lemma In_kinds_info : In (lit "info") kinds.
Proof. left; reflexivity. Qed.

Lemma In_kinds_success : In (lit "success") kinds.
Proof. right; left; reflexivity. Qed.

Lemma In_kinds_error : In (lit "error") kinds.
Proof. right; right; left; reflexivity. Qed.

Lemma In_kinds_list : In (lit "list") kinds.
Proof. right; right; right; left; reflexivity. Qed.

Lemma In_kinds_help : In (lit "help") kinds.
Proof. right; right; right; right; left; reflexivity. Qed.

Lemma is_CommandResult_intro kind text :
  In kind kinds -> is_CommandResult (CommandResult kind (VStr text)).
Proof. intros H; exists kind, text; split; [exact H | reflexivity]. Qed.

(** The own properties of [FILE_CONTENT] are non-empty strings. *)
Lemma FILE_CONTENT_own file v :
  assoc file FILE_CONTENT_object = Some v ->
  exists content, v = VStr content /\ truthy v = true.
Proof.
  unfold FILE_CONTENT_object, FILE_CONTENT; cbn [map assoc fst snd].
  repeat match goal with
         | |- context [eqb file ?x] => destruct (eqb file x)
         end;
    intros E; try discriminate; injection E as <-;
    eexists; split; reflexivity.
Qed.

(** What a handler returns is a CommandResult, but for [cat] on a name
    that [Object.prototype] has. *)
Lemma handler_result c args s r s' :
  handler h c (Some args) s = (Ret r, s') ->
  is_CommandResult r
  \/ (c = cat /\ has_own Object_prototype_properties (trim args) = true).
Proof.
  destruct c; cbn [handler]; run.
  - intros E; injection E as <- _; left.
    apply is_CommandResult_intro, In_kinds_help.
  - destruct (fault h (QuerySelector SELECTORS.commandHistory)); run; [discriminate|].
    destruct (present h SELECTORS.commandHistory); run.
    + destruct (fault h (SetInnerHTML SELECTORS.commandHistory (lit ""))); run;
        [discriminate|].
      intros E; injection E as <- _; left.
      apply is_CommandResult_intro, In_kinds_success.
    + intros E; injection E as <- _; left.
      apply is_CommandResult_intro, In_kinds_success.
  - intros E; injection E as <- _; left.
    apply is_CommandResult_intro, In_kinds_info.
  - intros E; injection E as <- _; left.
    apply is_CommandResult_intro, In_kinds_list.
  - unfold get_property, has_own.
    destruct (assoc (trim args) FILE_CONTENT_object) as [v|] eqn:A.
    + destruct (FILE_CONTENT_own _ A) as [content [-> T]]. rewrite T.
      intros E; injection E as <- _; left.
      apply is_CommandResult_intro, In_kinds_info.
    + destruct (assoc (trim args) Object_prototype_properties) as [v|];
        [right; split; reflexivity|].
      cbn [truthy]. intros E; injection E as <- _; left.
      apply is_CommandResult_intro, In_kinds_error.
  - intros E; injection E as <- _; left.
    apply is_CommandResult_intro, In_kinds_info.
  - destruct (fault h _); run; [discriminate|].
    intros E; injection E as <- _; left.
    apply is_CommandResult_intro, In_kinds_success.
  - destruct (fault h _); run; [discriminate|].
    intros E; injection E as <- _; left.
    apply is_CommandResult_intro, In_kinds_success.
  - destruct (fault h _); run; [discriminate|].
    intros E; injection E as <- _; left.
    apply is_CommandResult_intro, In_kinds_success.
  - destruct (closeTerminal h s) as [[u|e] s0]; [|discriminate].
    intros E; injection E as <- _; left.
    apply is_CommandResult_intro, In_kinds_info.
Qed.

(** The key of the [cat] handler is ["cat"] only. *)
Lemma assoc_commands_cat k :
  assoc k commands = Some (VFun (Handler cat)) -> k = lit "cat".
Proof.
  unfold commands; cbn [assoc].
  destruct (eqb k (lit "help")); [discriminate|].
  destruct (eqb k (lit "clear")); [discriminate|].
  destruct (eqb k (lit "whoami")); [discriminate|].
  destruct (eqb k (lit "ls")); [discriminate|].
  destruct (eqb k (lit "cat")) eqn:E; [intros _; apply eqb_eq; exact E|].
  repeat match goal with
         | |- context [eqb k ?x] => destruct (eqb k x); [discriminate|]
         end.
  discriminate.
Qed.

(** The own properties of [commands] are its handlers. *)
Lemma commands_own k v :
  assoc k commands = Some v -> exists c, v = VFun (Handler c).
Proof.
  unfold commands; cbn [assoc].
  repeat match goal with
         | |- context [eqb k ?x] =>
             destruct (eqb k x); [intros E; injection E as <-; eexists; reflexivity|]
         end.
  discriminate.
Qed.

End ExecuteShape.

(** X3: the outcome of [execute] depends on the input only through the
    lower-cased first token and the tokens after it: two inputs that are
    not blank, whose first tokens lower-case to the same name and whose
    remaining tokens are the same, give the same outcome and the same
    state (white space around the line, the length and kind of the runs
    between tokens and the case of the command name do not matter). *)
Theorem execute_tokens_only {B : Builtins} (h : Host) (a b : jsstring) (s : State) :
  trim a <> [] -> trim b <> [] ->
  toLowerCase (nth 0 (split_ws (trim a)) []) = toLowerCase (nth 0 (split_ws (trim b)) []) ->
  skipn 1 (split_ws (trim a)) = skipn 1 (split_ws (trim b)) ->
  execute h a s = execute h b s.
Proof.
  intros Ha Hb Hcmd Hargs.
  rewrite !execute_nonempty by assumption.
  unfold dispatch. rewrite !quit_test.
  unfold execute_args, execute_parts. rewrite Hargs.
  unfold execute_cmd, execute_parts. rewrite Hcmd. reflexivity.
Qed.

Lemma execute_tokens_only_witness :
  execute (B := Reference.builtins) Reference.quiet
    (lit "  CAT    about.txt ") (initial None)
  = execute (B := Reference.builtins) Reference.quiet
      (lit "cat about.txt") (initial None).
Proof.
  apply (execute_tokens_only (B := Reference.builtins) Reference.quiet
           (lit "  CAT    about.txt ") (lit "cat about.txt") (initial None));
    vm_compute; solve [reflexivity | discriminate].
Defined.

(** X4: what [execute] returns is [null] (blank input), a CommandResult,
    or else the command name is a property of [Object.prototype], or the
    command is [cat] and its trimmed argument is one: these inherited
    names are the only way to a result without a kind and a text. *)
Theorem execute_result_shape {B : Builtins} (h : Host)
    (input : jsstring) (s s' : State) (v : jsval) :
  execute h input s = (Ret v, s') ->
  v = VNull
  \/ is_CommandResult v
  \/ has_own Object_prototype_properties (execute_cmd (trim input)) = true
  \/ (execute_cmd (trim input) = lit "cat"
      /\ has_own Object_prototype_properties (trim (execute_args (trim input))) = true).
Proof.
  destruct (trim input) as [|d t] eqn:T.
  { rewrite execute_empty by exact T. intros E; injection E as <- _; auto. }
  rewrite execute_nonempty by congruence. rewrite T.
  set (trimmed := d :: t). set (cmd := execute_cmd trimmed).
  set (args := execute_args trimmed).
  unfold dispatch.
  destruct (eqb trimmed (lit ":q") || eqb cmd (lit ":q")).
  { change (call h (get_property commands (lit ":q")) (lit ":q") None)
      with (handler h quit None).
    cbn [handler]; unfold bind at 1.
    destruct (closeTerminal h s) as [[u|e] s0]; [|discriminate].
    intros E; injection E as <- _; right; left.
    apply is_CommandResult_intro, In_kinds_info. }
  unfold get_property, has_own.
  destruct (assoc cmd commands) as [f|] eqn:A.
  - destruct (commands_own _ A) as [c ->]. cbn [truthy call].
    unfold try_catch, bind at 1.
    destruct (handler h c (Some args) s) as [[r|e] s0] eqn:Hh.
    + destruct (handler_result _ _ _ _ Hh) as [R|[-> P]].
      * unfold ret. intros E; injection E as <- _; right; left.
        destruct (truthy r); [exact R|].
        apply is_CommandResult_intro, In_kinds_info.
      * intros _; right; right; right. split; [|exact P].
        apply assoc_commands_cat; exact A.
    + run. intros E; injection E as <- _; right; left.
      apply is_CommandResult_intro, In_kinds_error.
  - destruct (assoc cmd Object_prototype_properties) as [f|]; [auto|].
    cbn [truthy]. unfold ret. intros E; injection E as <- _; right; left.
    apply is_CommandResult_intro, In_kinds_error.
Qed.

Lemma execute_result_shape_witness :
  execute (B := Reference.builtins) Reference.quiet (lit "sudo ls") (initial None)
  = (Ret (CommandResult (lit "error")
            (VStr (lit "Command not found: sudo. Type 'help' for available commands."))),
     initial None)
  /\ is_CommandResult
       (CommandResult (lit "error")
          (VStr (lit "Command not found: sudo. Type 'help' for available commands."))).
Proof.
  assert (H : execute (B := Reference.builtins) Reference.quiet (lit "sudo ls")
                (initial None)
              = (Ret (CommandResult (lit "error")
                        (VStr (lit "Command not found: sudo. Type 'help' for available commands."))),
                 initial None)) by (vm_compute; reflexivity).
  split; [exact H|].
  destruct (execute_result_shape (B := Reference.builtins) Reference.quiet _ _ H)
    as [E|[R|[P|[P _]]]].
  - discriminate E.
  - exact R.
  - vm_compute in P; discriminate P.
  - vm_compute in P; discriminate P.
Defined.

(* ================================================================== *)
(** * Further properties of the history store *)
(* ================================================================== *)

Lemma slice_last_all {A} n (l : list A) :
  (length l <= n)%nat -> slice_last n l = l.
Proof.
  intros H; unfold slice_last.
  replace (length l - n)%nat with 0%nat by lia. reflexivity.
Qed.

(** X5: a failed load is never fatal.  When the read of the storage slot
    throws, or the stored text does not parse, or it parses to a value
    that is neither an array nor a string, [init] returns normally with
    the empty list and the cursor at 0, whatever the list held before; the
    error is logged once to the console and the storage is not written. *)
Theorem init_fallback {B : Builtins} (h : Host) (s : State) (e : Error) :
  load_failure h s e ->
  init h s
  = (Ret tt,
     {| history := HArray [];
        historyIndex := 0;
        localStorage := localStorage s;
        trace := trace s
                 ++ [GetItem CONFIG.storageKey;
                     ConsoleError (lit "Error loading command history:") e] |}).
Proof.
  intros F; destruct s as [hi idx ls tr].
  destruct F as [e F | saved F L N P | saved v F L N P NA NS];
    unfold init, loadHistory, parse_and_slice; run; rewrite F; run.
  - rewrite <- app_assoc. reflexivity.
  - simpl in L; subst ls. destruct saved as [|c saved]; [congruence|].
    rewrite P; run. rewrite <- app_assoc. reflexivity.
  - simpl in L; subst ls. destruct saved as [|c saved]; [congruence|].
    rewrite P. destruct v; run;
      try (rewrite <- app_assoc; reflexivity).
    + exfalso; exact (NS _ eq_refl).
    + exfalso; exact (NA _ eq_refl).
Qed.

Lemma init_fallback_witness :
  init (B := Reference.builtins) Reference.quiet
    {| history := HArray [VStr (lit "ls")]; historyIndex := 1;
       localStorage := Some (lit "{oops"); trace := [] |}
  = (Ret tt,
     {| history := HArray [];
        historyIndex := 0;
        localStorage := Some (lit "{oops");
        trace := [GetItem CONFIG.storageKey;
                  ConsoleError (lit "Error loading command history:")
                    (SyntaxError Reference.quiet (lit "{oops"))] |}).
Proof.
  apply (@init_fallback Reference.builtins Reference.quiet
           {| history := HArray [VStr (lit "ls")]; historyIndex := 1;
              localStorage := Some (lit "{oops"); trace := [] |}).
  apply Parse_throws; [reflexivity | reflexivity | discriminate | reflexivity].
Defined.

(** X6: with nothing stored (no entry, or the empty text) and a read that
    does not throw, [init] keeps the list it has, puts the cursor one past
    its end, and logs nothing but the read. *)
Theorem init_nothing_stored {B : Builtins} (h : Host) (s : State) :
  fault h (GetItem CONFIG.storageKey) = None ->
  localStorage s = None \/ localStorage s = Some [] ->
  init h s
  = (Ret tt,
     {| history := history s;
        historyIndex := hist_length (history s);
        localStorage := localStorage s;
        trace := trace s ++ [GetItem CONFIG.storageKey] |}).
Proof.
  intros F L; destruct s as [hi idx ls tr]; simpl in L.
  unfold init, loadHistory; run; rewrite F; run.
  destruct L as [-> | ->]; reflexivity.
Qed.

Lemma init_nothing_stored_witness :
  init (B := Reference.builtins) Reference.quiet (initial None)
  = (Ret tt,
     {| history := HArray []; historyIndex := 0; localStorage := None;
        trace := [GetItem CONFIG.storageKey] |}).
Proof.
  apply (@init_nothing_stored Reference.builtins Reference.quiet (initial None));
    [reflexivity | left; reflexivity].
Defined.

(** What a submission on an array leaves, by whether [setItem] throws. *)
Lemma addToHistory_written {B : Builtins} (h : Host)
    (c : jsstring) (s : State) (l : list jsval) :
  trim c <> [] -> history s = HArray l ->
  addToHistory h c s
  = (Ret tt,
     match fault h (SetItem CONFIG.storageKey
                      (JSON_stringify (VArr (push_bounded l (trim c))))) with
     | None =>
         {| history := HArray (push_bounded l (trim c));
            historyIndex := Z.of_nat (length (push_bounded l (trim c)));
            localStorage := Some (JSON_stringify (VArr (push_bounded l (trim c))));
            trace := trace s
                     ++ [SetItem CONFIG.storageKey
                           (JSON_stringify (VArr (push_bounded l (trim c))))] |}
     | Some e =>
         {| history := HArray (push_bounded l (trim c));
            historyIndex := Z.of_nat (length (push_bounded l (trim c)));
            localStorage := localStorage s;
            trace := trace s
                     ++ [SetItem CONFIG.storageKey
                           (JSON_stringify (VArr (push_bounded l (trim c))));
                         ConsoleError (lit "Error saving command history:") e] |}
     end).
Proof.
  intros Hc Hs; destruct s as [hi idx ls tr]; simpl in Hs; subst hi.
  unfold addToHistory. destruct (trim c) as [|d t]; [congruence|].
  unfold saveHistory; run. cbn [hist_value].
  destruct (fault h _); run; [rewrite <- app_assoc|]; reflexivity.
Qed.

(** X7: persistence is best effort.  A submission that is not blank, on a
    history that is an array, always returns with the list and the cursor
    updated; the list is written to the storage slot as one JSON text when
    [setItem] succeeds, and when it throws the slot keeps what it had and
    the error is logged to the console, not raised. *)
Theorem addToHistory_persists {B : Builtins} (h : Host)
    (c : jsstring) (s : State) (l : list jsval) :
  trim c <> [] -> history s = HArray l ->
  addToHistory h c s
  = (Ret tt,
     match fault h (SetItem CONFIG.storageKey
                      (JSON_stringify (VArr (push_bounded l (trim c))))) with
     | None =>
         {| history := HArray (push_bounded l (trim c));
            historyIndex := Z.of_nat (length (push_bounded l (trim c)));
            localStorage := Some (JSON_stringify (VArr (push_bounded l (trim c))));
            trace := trace s
                     ++ [SetItem CONFIG.storageKey
                           (JSON_stringify (VArr (push_bounded l (trim c))))] |}
     | Some e =>
         {| history := HArray (push_bounded l (trim c));
            historyIndex := Z.of_nat (length (push_bounded l (trim c)));
            localStorage := localStorage s;
            trace := trace s
                     ++ [SetItem CONFIG.storageKey
                           (JSON_stringify (VArr (push_bounded l (trim c))));
                         ConsoleError (lit "Error saving command history:") e] |}
     end).
Proof. apply addToHistory_written. Qed.

Lemma addToHistory_persists_witness :
  addToHistory (B := Reference.builtins) Reference2.storage_full (lit " ls ")
    (initial None)
  = (Ret tt,
     {| history := HArray [VStr (lit "ls")];
        historyIndex := 1;
        localStorage := None;
        trace := [SetItem CONFIG.storageKey
                    (Reference.stringify (VArr [VStr (lit "ls")]));
                  ConsoleError (lit "Error saving command history:")
                    Reference2.quota_exceeded] |}).
Proof.
  rewrite (@addToHistory_persists Reference.builtins Reference2.storage_full
             (lit " ls ") (initial None) []);
    [reflexivity | discriminate | reflexivity].
Defined.

(** X8: the history survives a reload.  After a submission that is not
    blank on a list within the maximum, with a [setItem] that succeeds,
    [init] in a fresh session on the storage left behind (with a read that
    succeeds and a codec that reads back the text it wrote) restores the
    same list, in the same order, with the cursor one past its end. *)
Theorem history_survives_reload {B : Builtins} (h1 h2 : Host)
    (c : jsstring) (s : State) (l : list jsval) :
  trim c <> [] -> history s = HArray l ->
  (length l <= CONFIG.maxHistoryItems)%nat ->
  fault h1 (SetItem CONFIG.storageKey
              (JSON_stringify (VArr (push_bounded l (trim c))))) = None ->
  fault h2 (GetItem CONFIG.storageKey) = None ->
  JSON_stringify (VArr (push_bounded l (trim c))) <> [] ->
  JSON_parse (JSON_stringify (VArr (push_bounded l (trim c))))
  = Some (VArr (push_bounded l (trim c))) ->
  init h2 (initial (localStorage (snd (addToHistory h1 c s))))
  = (Ret tt,
     {| history := HArray (push_bounded l (trim c));
        historyIndex := Z.of_nat (length (push_bounded l (trim c)));
        localStorage := Some (JSON_stringify (VArr (push_bounded l (trim c))));
        trace := [GetItem CONFIG.storageKey] |}).
Proof.
  intros Hc Hs Hl F1 F2 Hne Hrt.
  rewrite (@addToHistory_written B h1 c s l Hc Hs), F1. cbn [snd localStorage].
  unfold init, loadHistory, parse_and_slice, initial; run. rewrite F2; run.
  destruct (JSON_stringify (VArr (push_bounded l (trim c)))) as [|u text] eqn:T;
    [congruence|].
  rewrite Hrt; run.
  rewrite slice_last_all by (apply push_bounded_length; exact Hl).
  reflexivity.
Qed.

Lemma history_survives_reload_witness :
  init (B := Reference.builtins) Reference.quiet
    (initial (localStorage
                (snd (addToHistory (B := Reference.builtins) Reference.quiet
                        (lit " whoami ") Reference.two_entries))))
  = (Ret tt,
     {| history := HArray [VStr (lit "ls"); VStr (lit "help"); VStr (lit "whoami")];
        historyIndex := 3;
        localStorage :=
          Some (Reference.stringify
                  (VArr [VStr (lit "ls"); VStr (lit "help"); VStr (lit "whoami")]));
        trace := [GetItem CONFIG.storageKey] |}).
Proof.
  apply (@history_survives_reload Reference.builtins Reference.quiet Reference.quiet
           (lit " whoami ") Reference.two_entries
           [VStr (lit "ls"); VStr (lit "help")]);
    vm_compute; solve [reflexivity | discriminate | lia].
Defined.

Section StringHistory.

Context {B : Builtins} (h : Host).

Lemma step_string s o t :
  history s = HString t -> history (step h s o) = HString t.
Proof.
  intros Hs; destruct o as [c| |]; simpl.
  - destruct (trim c) as [|d u] eqn:T.
    + rewrite addToHistory_empty by exact T. exact Hs.
    + destruct (addToHistory_string h c s (t := t)) as [e E];
        [congruence | exact Hs |].
      rewrite E. exact Hs.
  - rewrite (proj1 (getPrevious_frame s)). exact Hs.
  - rewrite (proj1 (getNext_frame s)). exact Hs.
Qed.

Lemma addToHistory_string_throws c s t :
  trim c <> [] -> history s = HString t ->
  addToHistory h c s = (Throw (TypeError h (lit "this.history.push")), s).
Proof.
  unfold addToHistory; intros Hc Hs.
  destruct (trim c); [congruence|]; run. rewrite Hs. reflexivity.
Qed.

End StringHistory.

(** X9: stored text that parses to a JSON string is taken as the history:
    after [init] the history is that string (its last 50 units), not a
    list, and it stays so through every sequence of operations; from then
    on every submission that is not blank throws a [TypeError] out of
    [addToHistory] and leaves the state as it was. *)
Theorem string_history_blocks_submissions {B : Builtins} (h : Host)
    (s : State) (saved t : jsstring) :
  fault h (GetItem CONFIG.storageKey) = None ->
  localStorage s = Some saved -> saved <> [] ->
  JSON_parse saved = Some (VStr t) ->
  history (snd (init h s)) = HString (slice_last 50 t)
  /\ forall ops c,
       trim c <> [] ->
       history (run_ops h ops (snd (init h s))) = HString (slice_last 50 t)
       /\ addToHistory h c (run_ops h ops (snd (init h s)))
          = (Throw (TypeError h (lit "this.history.push")),
             run_ops h ops (snd (init h s))).
Proof.
  intros F L N P.
  assert (H0 : history (snd (init h s)) = HString (slice_last 50 t)).
  { destruct s as [hi idx ls tr]; simpl in L; subst ls.
    destruct saved as [|u saved]; [congruence|].
    unfold init, loadHistory, parse_and_slice; run. rewrite F; run.
    rewrite P; run. reflexivity. }
  split; [exact H0|].
  intros ops c Hc.
  assert (H1 : history (run_ops h ops (snd (init h s))) = HString (slice_last 50 t)).
  { apply (run_ops_invariant h (fun s => history s = HString (slice_last 50 t)));
      [intros s0 o; apply step_string | exact H0]. }
  split; [exact H1|].
  exact (addToHistory_string_throws h c _ Hc H1).
Qed.

Lemma string_history_blocks_submissions_witness :
  history (snd (init (B := Reference2.builtins) Reference.quiet
                  (initial (Some (Reference.quote (VStr (lit "ls")))))))
  = HString (lit "ls")
  /\ fst (addToHistory (B := Reference2.builtins) Reference.quiet (lit "help")
            (snd (init (B := Reference2.builtins) Reference.quiet
                    (initial (Some (Reference.quote (VStr (lit "ls"))))))))
     = Throw (TypeError Reference.quiet (lit "this.history.push")).
Proof.
  destruct (@string_history_blocks_submissions Reference2.builtins Reference.quiet
              (initial (Some (Reference.quote (VStr (lit "ls")))))
              (Reference.quote (VStr (lit "ls"))) (lit "ls"))
    as [H0 H1]; try (vm_compute; solve [reflexivity | discriminate]).
  split; [exact H0|].
  destruct (H1 [] (lit "help")) as [_ E]; [discriminate|].
  unfold run_ops in E; cbn [fold_left] in E. rewrite E. reflexivity.
Defined.

Lemma ups_history k s : history (ups k s) = history s.
Proof.
  revert s; induction k as [|k IH]; intros s; simpl; [reflexivity|].
  rewrite IH. apply getPrevious_frame.
Qed.

Lemma ups_index k s :
  (0 <= historyIndex s)%Z ->
  historyIndex (ups k s) = Z.max 0 (historyIndex s - Z.of_nat k).
Proof.
  revert s; induction k as [|k IH]; intros s H; simpl ups.
  - simpl; lia.
  - unfold getPrevious; run.
    destruct (Z.ltb_spec 0 (historyIndex s)); cbn [snd].
    + rewrite IH by (simpl; lia). simpl; lia.
    + rewrite IH by exact H. lia.
Qed.

(** X10: walking back.  From a cursor that is not negative, after [k]
    presses of ArrowUp the next press returns the entry [k + 1] places
    before the cursor while there is one, and the empty string once the
    oldest entry has been passed, where the cursor stays at 0; the list
    itself is never changed. *)
Theorem walk_back (k : nat) (s : State) :
  (0 <= historyIndex s)%Z ->
  history (ups k s) = history s
  /\ historyIndex (ups k s) = Z.max 0 (historyIndex s - Z.of_nat k)
  /\ fst (getPrevious (ups k s))
     = Ret (if (0 <? historyIndex s - Z.of_nat k)%Z
            then hist_get (history s) (historyIndex s - Z.of_nat k - 1)
            else VStr (lit "")).
Proof.
  intros H. split; [apply ups_history|]. split; [apply ups_index; exact H|].
  unfold getPrevious; run.
  rewrite ups_index by exact H. rewrite ups_history.
  destruct (Z.ltb_spec 0 (historyIndex s - Z.of_nat k));
    destruct (Z.ltb_spec 0 (Z.max 0 (historyIndex s - Z.of_nat k)));
    try lia; cbn [fst]; [|reflexivity].
  replace (Z.max 0 (historyIndex s - Z.of_nat k) - 1)%Z
    with (historyIndex s - Z.of_nat k - 1)%Z by lia.
  reflexivity.
Qed.

Lemma walk_back_witness :
  fst (getPrevious (ups 1 Reference.two_entries)) = Ret (VStr (lit "ls"))
  /\ fst (getPrevious (ups 2 Reference.two_entries)) = Ret (VStr (lit ""))
  /\ historyIndex (ups 5 Reference.two_entries) = 0%Z.
Proof.
  assert (H : (0 <= historyIndex Reference.two_entries)%Z) by (simpl; lia).
  split; [|split].
  - rewrite (proj2 (proj2 (walk_back 1 Reference.two_entries H))). reflexivity.
  - rewrite (proj2 (proj2 (walk_back 2 Reference.two_entries H))). reflexivity.
  - rewrite (proj1 (proj2 (walk_back 5 Reference.two_entries H))). reflexivity.
Defined.

(** X11: ArrowUp and ArrowDown undo each other.  With the cursor in range:
    when there is an older entry, Up then Down puts the cursor back where
    it was and returns the entry there, or the empty string when the
    cursor was past the end; and when the cursor is on an entry, Down then
    Up puts it back and returns that entry. *)
Theorem up_down_round_trip (s : State) :
  cursor_ok s ->
  ((0 < historyIndex s)%Z ->
     getNext (snd (getPrevious s))
     = (Ret (if (historyIndex s <? hist_length (history s))%Z
             then hist_get (history s) (historyIndex s)
             else VStr (lit "")),
        s))
  /\ ((historyIndex s < hist_length (history s))%Z ->
      getPrevious (snd (getNext s))
      = (Ret (hist_get (history s) (historyIndex s)), s)).
Proof.
  intros [H0 H1]; destruct s as [hi idx ls tr]; simpl in *.
  split; intros H.
  - unfold getPrevious, getNext; run.
    destruct (Z.ltb_spec 0 idx); [|lia]. run.
    destruct (Z.ltb_spec (idx - 1) (hist_length hi - 1));
      destruct (Z.ltb_spec idx (hist_length hi)); try lia; run.
    + replace (idx - 1 + 1)%Z with idx by lia. reflexivity.
    + replace (hist_length hi) with idx by lia. reflexivity.
  - unfold getPrevious, getNext; run.
    destruct (Z.ltb_spec idx (hist_length hi - 1)); run.
    + destruct (Z.ltb_spec 0 (idx + 1)); [|lia]. run.
      replace (idx + 1 - 1)%Z with idx by lia. reflexivity.
    + destruct (Z.ltb_spec 0 (hist_length hi)); [|lia]. run.
      replace (hist_length hi - 1)%Z with idx by lia. reflexivity.
Qed.

Lemma up_down_round_trip_witness :
  getNext (snd (getPrevious Reference.two_entries))
  = (Ret (VStr (lit "")), Reference.two_entries)
  /\ getPrevious (snd (getNext (with_historyIndex Reference.two_entries 1)))
     = (Ret (VStr (lit "help")), with_historyIndex Reference.two_entries 1).
Proof.
  split.
  - apply (up_down_round_trip (s := Reference.two_entries));
      [unfold cursor_ok; simpl; lia | simpl; lia].
  - apply (up_down_round_trip (s := with_historyIndex Reference.two_entries 1));
      [unfold cursor_ok; simpl; lia | simpl; lia].
Defined.

(* ================================================================== *)
(** * Utils *)
(* ================================================================== *)

Lemma escapeHtml_cons c text :
  escapeHtml (c :: text) = escapeHtml_unit c ++ escapeHtml text.
Proof. reflexivity. Qed.

(** The escaping of a unit has none of the units [<], [>], U+00A0. *)
Lemma escapeHtml_unit_clean c x :
  In x (escapeHtml_unit c) -> x <> 60%N /\ x <> 62%N /\ x <> 160%N.
Proof.
  unfold escapeHtml_unit.
  destruct (N.eqb_spec c 38); [|destruct (N.eqb_spec c 160);
    [|destruct (N.eqb_spec c 60); [|destruct (N.eqb_spec c 62)]]];
    simpl; intros H;
    repeat match goal with
           | H : _ \/ _ |- _ => destruct H as [H|H]
           | H : False |- _ => destruct H
           end;
    subst; repeat split; try discriminate; congruence.
Qed.

(** Two units with the same escaping, up to what follows, are the same. *)
Lemma escapeHtml_unit_inj c d u v :
  escapeHtml_unit c ++ u = escapeHtml_unit d ++ v -> c = d /\ u = v.
Proof.
  unfold escapeHtml_unit.
  destruct (N.eqb_spec c 38); [|destruct (N.eqb_spec c 160);
    [|destruct (N.eqb_spec c 60); [|destruct (N.eqb_spec c 62)]]];
    (destruct (N.eqb_spec d 38); [|destruct (N.eqb_spec d 160);
       [|destruct (N.eqb_spec d 60); [|destruct (N.eqb_spec d 62)]]]);
    simpl; intros H; subst;
    try (injection H; intros; subst; split; congruence);
    try discriminate H;
    injection H; intros; subst; congruence.
Qed.

Lemma escapeHtml_inj a : forall b, escapeHtml a = escapeHtml b -> a = b.
Proof.
  induction a as [|c a IH]; intros [|d b] H.
  - reflexivity.
  - rewrite escapeHtml_cons in H; simpl in H.
    unfold escapeHtml_unit in H.
    destruct (d =? 38)%N, (d =? 160)%N, (d =? 60)%N, (d =? 62)%N; discriminate H.
  - rewrite escapeHtml_cons in H; simpl in H.
    unfold escapeHtml_unit in H.
    destruct (c =? 38)%N, (c =? 160)%N, (c =? 60)%N, (c =? 62)%N; discriminate H.
  - rewrite !escapeHtml_cons in H.
    apply escapeHtml_unit_inj in H; destruct H as [-> H].
    f_equal; apply IH; exact H.
Qed.

(** X12: escaped text carries no markup and loses nothing: the result of
    [escapeHtml] has no unit [<] or [>] (nor U+00A0), whatever the text,
    so no tag can come out of it; it is the text itself when the text has
    none of [&], [<], [>], U+00A0; and two different texts have different
    escapings. *)
Theorem escapeHtml_safe_and_faithful (text : jsstring) :
  (forall x, In x (escapeHtml text) -> x <> 60%N /\ x <> 62%N /\ x <> 160%N)
  /\ (forallb (fun c => negb ((c =? 38) || (c =? 160) || (c =? 60) || (c =? 62))%N) text
      = true -> escapeHtml text = text)
  /\ (forall other, escapeHtml text = escapeHtml other -> text = other).
Proof.
  split; [|split].
  - intros x H. unfold escapeHtml in H. apply in_flat_map in H.
    destruct H as [c [_ H]]. exact (escapeHtml_unit_clean _ _ H).
  - induction text as [|c text IH]; [reflexivity|].
    simpl forallb. rewrite andb_true_iff, negb_true_iff, !orb_false_iff.
    intros [[[[H1 H2] H3] H4] H5].
    rewrite escapeHtml_cons, IH by exact H5.
    unfold escapeHtml_unit. rewrite H1, H2, H3, H4. reflexivity.
  - apply escapeHtml_inj.
Qed.

Lemma escapeHtml_safe_and_faithful_witness :
  escapeHtml (lit "ls -la") = lit "ls -la"
  /\ escapeHtml (lit "<b>&") = lit "&lt;b&gt;&amp;".
Proof.
  split; [|reflexivity].
  apply (proj1 (proj2 (escapeHtml_safe_and_faithful (lit "ls -la")))).
  reflexivity.
Defined.

Section ThrottleFacts.

Variable Args : Type.




End ThrottleFacts.



(* ================================================================== *)
(** * The page *)
(* ================================================================== *)

Lemma dropWhile_id p s :
  p (hd 0%N s) = false -> s <> [] -> dropWhile p s = s.
Proof. destruct s as [|c s]; [congruence|]; simpl; intros ->; reflexivity. Qed.

Lemma hd_rev_last (s : jsstring) d : hd d (rev s) = last s d.
Proof.
  induction s as [|c s IH]; [reflexivity|].
  simpl rev. destruct s as [|c' s]; [reflexivity|].
  change (last (c :: c' :: s) d) with (last (c' :: s) d). rewrite <- IH.
  destruct (rev (c' :: s)) eqn:E; [|reflexivity].
  apply (f_equal (@length N)) in E. rewrite length_rev in E. discriminate.
Qed.

(** Trimming a trimmed string changes nothing. *)
Lemma trim_idempotent s : trim (trim s) = trim s.
Proof.
  destruct (trim_shape s) as [E | [Hne [Hh Hl]]]; [rewrite E; reflexivity|].
  set (t := trim s) in *. unfold trim at 1, trimEnd, trimStart.
  rewrite (@dropWhile_id isWhiteSpace t Hh Hne).
  rewrite dropWhile_id; [apply rev_involutive | rewrite hd_rev_last; exact Hl |].
  intros E; apply Hne. rewrite <- (rev_involutive t), E. reflexivity.
Qed.

Lemma skipn_length_app {A} (a b : list A) : skipn (length a) (a ++ b) = b.
Proof. induction a as [|x a IH]; [reflexivity | exact IH]. Qed.

Section PageFacts.

Context {B : Builtins} {C : Conversions} (h : Host).

(** Running a computation whose new calls are known. *)
Lemma lift_run {A} (m : M A) p r s' calls :
  m (system p) = (r, s') -> trace s' = trace (system p) ++ calls ->
  lift h m p = (r, fold_left (effect h) calls (with_system p s')).
Proof.
  intros E T; unfold lift. rewrite E, T, skipn_length_app. reflexivity.
Qed.

Lemma effect_frame p c :
  system (effect h p c) = system p
  /\ inputValue (effect h p c) = inputValue p
  /\ inputFocused (effect h p c) = inputFocused p.
Proof.
  unfold effect; destruct (fault h c); [repeat split|].
  destruct c; simpl; try (repeat split; fail).
  - destruct (eqb selector SELECTORS.commandHistory && eqb html (lit ""));
      repeat split.
  - destruct (eqb selector SELECTORS.terminalContainer); repeat split.
Qed.

Lemma effects_frame calls : forall p,
  system (fold_left (effect h) calls p) = system p
  /\ inputValue (fold_left (effect h) calls p) = inputValue p
  /\ inputFocused (fold_left (effect h) calls p) = inputFocused p.
Proof.
  induction calls as [|c calls IH]; intros p; simpl; [repeat split|].
  destruct (IH (effect h p c)) as [H1 [H2 H3]].
  destruct (effect_frame p c) as [K1 [K2 K3]].
  repeat split; congruence.
Qed.

(** The calls a page operation can log never lengthen the transcript. *)
Lemma effect_transcript p c :
  transcript (effect h p c) = transcript p \/ transcript (effect h p c) = [].
Proof.
  unfold effect; destruct (fault h c); [left; reflexivity|].
  destruct c; simpl; try (left; reflexivity).
  - destruct (eqb selector SELECTORS.commandHistory && eqb html (lit ""));
      [right | left]; reflexivity.
  - destruct (eqb selector SELECTORS.terminalContainer); left; reflexivity.
Qed.

Lemma effects_transcript calls : forall p,
  (length (transcript (fold_left (effect h) calls p)) <= length (transcript p))%nat.
Proof.
  induction calls as [|c calls IH]; intros p; simpl; [lia|].
  specialize (IH (effect h p c)).
  destruct (effect_transcript p c) as [E|E]; rewrite E in IH; simpl in IH; lia.
Qed.

Lemma lift_frame {A} (m : M A) p :
  system (snd (lift h m p)) = snd (m (system p))
  /\ inputValue (snd (lift h m p)) = inputValue p
  /\ inputFocused (snd (lift h m p)) = inputFocused p
  /\ (length (transcript (snd (lift h m p))) <= length (transcript p))%nat.
Proof.
  unfold lift. destruct (m (system p)) as [r s']. cbn [snd].
  destruct (effects_frame (skipn (length (trace (system p))) (trace s'))
              (with_system p s')) as [H1 [H2 H3]].
  pose proof (effects_transcript (skipn (length (trace (system p))) (trace s'))
                (with_system p s')) as H4.
  repeat split; assumption.
Qed.

Lemma lift_fst {A} (m : M A) p : fst (lift h m p) = fst (m (system p)).
Proof. unfold lift. destruct (m (system p)); reflexivity. Qed.

End PageFacts.

Lemma getPrevious_after_push s l c :
  history s = HArray (push_bounded l c) ->
  historyIndex s = Z.of_nat (length (push_bounded l c)) ->
  fst (getPrevious s) = Ret (VStr c).
Proof.
  intros Hh Hi. unfold getPrevious; run. rewrite Hi, Hh.
  pose proof (push_bounded_last l c) as Q.
  destruct (Z.ltb_spec 0 (Z.of_nat (length (push_bounded l c)))) as [L|L].
  - cbn [fst]. unfold hist_get.
    destruct (Z.ltb_spec (Z.of_nat (length (push_bounded l c)) - 1) 0); [lia|].
    replace (Z.to_nat (Z.of_nat (length (push_bounded l c)) - 1))
      with (length (push_bounded l c) - 1)%nat by lia.
    rewrite nth_pred_length_last, Q. reflexivity.
  - exfalso. destruct (push_bounded l c); [discriminate | simpl in L; lia].
Qed.

Section Enter.

Context {B : Builtins} {C : Conversions} (h : Host).

Lemma limitHistoryItems_frame p :
  fst (limitHistoryItems p) = Ret tt
  /\ system (snd (limitHistoryItems p)) = system p
  /\ inputValue (snd (limitHistoryItems p)) = inputValue p.
Proof.
  unfold limitHistoryItems, pbind, get_page, update, pret.
  destruct (CONFIG.maxHistoryItems <? length (transcript p))%nat; repeat split.
Qed.

Lemma addToHistoryDisplay_frame c r p :
  fst (addToHistoryDisplay h c r p) = Ret tt
  /\ system (snd (addToHistoryDisplay h c r p)) = system p
  /\ inputValue (snd (addToHistoryDisplay h c r p)) = inputValue p.
Proof.
  unfold addToHistoryDisplay.
  destruct (present h SELECTORS.commandHistory); cbn [negb]; [|repeat split].
  unfold pbind at 1, update.
  apply limitHistoryItems_frame.
Qed.

Lemma scrollToBottom_frame p :
  fst (scrollToBottom h p) = Ret tt
  /\ system (snd (scrollToBottom h p)) = system p
  /\ inputValue (snd (scrollToBottom h p)) = inputValue p.
Proof.
  unfold scrollToBottom, update, pret.
  destruct (present h SELECTORS.commandHistory); repeat split.
Qed.

(** What Enter leaves of the system and the input when it returns, on a
    command that is not blank. *)
Lemma executeCommand_returns p p1 :
  trim (inputValue p) <> [] ->
  executeCommand h p = (Ret tt, p1) ->
  inputValue p1 = lit ""
  /\ exists s1 s2 result,
       addToHistory h (trim (inputValue p)) (system p) = (Ret tt, s1)
       /\ execute h (trim (inputValue p)) s1 = (Ret result, s2)
       /\ system p1 = with_historyIndex s2 (hist_length (history s2)).
Proof.
  intros Hc. unfold executeCommand.
  unfold pbind at 1, get_page.
  destruct (trim (inputValue p)) as [|d t] eqn:T; [congruence|].
  cbn [negb truthy]. set (c := d :: t) in *.
  unfold pbind at 1.
  pose proof (lift_fst h (addToHistory h c) p) as F1.
  destruct (lift_frame h (addToHistory h c) p) as [S1 [V1 _]].
  destruct (lift h (addToHistory h c) p) as [[[]|e1] pa]; [|discriminate].
  cbn [fst snd] in *.
  unfold pbind at 1.
  pose proof (lift_fst h (execute h c) pa) as F2.
  destruct (lift_frame h (execute h c) pa) as [S2 [V2 _]].
  destruct (lift h (execute h c) pa) as [[result|e2] pb]; [|discriminate].
  cbn [fst snd] in *.
  unfold pbind at 1.
  assert (D : exists pc,
             (if truthy result then addToHistoryDisplay h c result else pret tt) pb
             = (Ret tt, pc) /\ system pc = system pb /\ inputValue pc = inputValue pb).
  { destruct (truthy result).
    - destruct (addToHistoryDisplay_frame c result pb) as [D1 [D2 D3]].
      destruct (addToHistoryDisplay h c result pb) as [o pc]; simpl in *; subst o.
      exists pc; auto.
    - exists pb; repeat split. }
  destruct D as [pc [-> [S3 V3]]].
  unfold pbind at 1, update.
  unfold pbind at 1. unfold pbind at 1, get_page. cbn [system with_inputValue].
  unfold lift at 1. cbn [set_historyIndex system with_inputValue trace].
  rewrite skipn_all. cbn [fold_left].
  destruct (scrollToBottom_frame
              (with_system (with_inputValue pc (lit ""))
                 {| history := history (system pc);
                    historyIndex := hist_length (history (system pc));
                    localStorage := localStorage (system pc);
                    trace := trace (system pc) |})) as [Q1 [Q2 Q3]].
  destruct (scrollToBottom h _) as [o pf]; simpl in Q1, Q2, Q3; subst o.
  intros E; injection E as <-.
  split; [exact Q3|].
  exists (system pa), (system pb), result.
  split; [|split].
  - rewrite (surjective_pairing (addToHistory h c (system p))), <- F1, S1.
    reflexivity.
  - rewrite (surjective_pairing (execute h c (system pa))), <- F2, S2.
    reflexivity.
  - rewrite Q2. cbn [system with_system]. rewrite S3.
    unfold with_historyIndex. reflexivity.
Qed.

End Enter.

(** X14: Enter, then ArrowUp.  On a history that is an array: Enter on a
    blank input changes nothing at all (the input is not even cleared);
    Enter on any other input, when it returns, leaves the input empty, the
    trimmed text as the newest entry and the cursor one past the end; the
    next ArrowUp then puts the trimmed text back into the input, and
    ArrowDown after it empties the input again. *)
Theorem enter_then_up {B : Builtins} {C : Conversions} (h : Host)
    (p : Page) (l : list jsval) :
  history (system p) = HArray l ->
  (trim (inputValue p) = [] -> handleKeyDown h KEYS.ENTER p = (Ret tt, p))
  /\ (trim (inputValue p) <> [] ->
      forall p1, handleKeyDown h KEYS.ENTER p = (Ret tt, p1) ->
        inputValue p1 = lit ""
        /\ history (system p1) = HArray (push_bounded l (trim (inputValue p)))
        /\ historyIndex (system p1)
           = Z.of_nat (length (push_bounded l (trim (inputValue p))))
        /\ exists p2,
             handleKeyDown h KEYS.ARROW_UP p1 = (Ret tt, p2)
             /\ inputValue p2 = trim (inputValue p)
             /\ exists p3,
                  handleKeyDown h KEYS.ARROW_DOWN p2 = (Ret tt, p3)
                  /\ inputValue p3 = lit "").
Proof.
  intros Hl.
  change (handleKeyDown h KEYS.ENTER) with (executeCommand h).
  split.
  - intros E. unfold executeCommand, pbind, get_page. rewrite E. reflexivity.
  - intros Hc p1 E.
    destruct (executeCommand_returns h p Hc E) as [V [s1 [s2 [r [A [X S]]]]]].
    set (c := trim (inputValue p)) in *.
    assert (Tc : trim c = c) by apply trim_idempotent.
    destruct (addToHistory_array h c (system p) (l := l)) as [s1' [A' [H1 H2]]];
      [rewrite Tc; exact Hc | exact Hl |].
    rewrite A in A'; injection A' as <-. rewrite Tc in H1, H2.
    pose proof (trace_only_execute h c s1) as [K1 _]. rewrite X in K1; cbn [snd] in K1.
    assert (Hh : history (system p1) = HArray (push_bounded l c)).
    { rewrite S; simpl. congruence. }
    assert (Hi : historyIndex (system p1) = Z.of_nat (length (push_bounded l c))).
    { rewrite S; simpl. rewrite K1, H1. reflexivity. }
    split; [exact V|]. split; [exact Hh|]. split; [exact Hi|].
    change (handleKeyDown h KEYS.ARROW_UP)
      with (v <-- lift h getPrevious ;;;
            update (fun p => with_inputValue p (value_string v))).
    unfold pbind at 1.
    pose proof (lift_fst h getPrevious p1) as F.
    rewrite (@getPrevious_after_push (system p1) l c Hh Hi) in F.
    destruct (lift_frame h getPrevious p1) as [S' _].
    destruct (lift h getPrevious p1) as [o p2'] eqn:L; cbn [fst snd] in F, S'.
    subst o. unfold update.
    eexists; split; [reflexivity|]. split; [apply ToString_string|].
    change (handleKeyDown h KEYS.ARROW_DOWN)
      with (v <-- lift h getNext ;;;
            update (fun p => with_inputValue p (value_string v))).
    unfold pbind at 1. cbn [with_inputValue].
    pose proof (lift_fst h getNext
                  (with_inputValue p2' (value_string (VStr c)))) as G.
    cbn [system with_inputValue] in G. rewrite S' in G.
    assert (N : fst (getNext (snd (getPrevious (system p1)))) = Ret (VStr (lit ""))).
    { unfold getPrevious, getNext; run. rewrite Hi, Hh.
      pose proof (push_bounded_last l c) as Q.
      destruct (Z.ltb_spec 0 (Z.of_nat (length (push_bounded l c)))) as [L0|L0];
        [|destruct (push_bounded l c); [discriminate | simpl in L0; lia]].
      run. rewrite Hh. cbn [hist_length].
      destruct (Z.ltb_spec (Z.of_nat (length (push_bounded l c)) - 1)
                  (Z.of_nat (length (push_bounded l c)) - 1)); [lia|].
      reflexivity. }
    rewrite N in G.
    destruct (lift h getNext _) as [o p3']; cbn [fst] in G; subst o.
    unfold update. eexists; split; [reflexivity|].
    cbn [inputValue with_inputValue value_string]. apply ToString_string.
Qed.

Lemma enter_then_up_witness :
  exists p1 p2,
    handleKeyDown (B := Reference.builtins) (C := ReferencePage.conversions)
      Reference.quiet KEYS.ENTER
      (with_inputValue (fresh_page Reference.two_entries []) (lit "  whoami "))
    = (Ret tt, p1)
    /\ inputValue p1 = lit ""
    /\ handleKeyDown (B := Reference.builtins) (C := ReferencePage.conversions)
         Reference.quiet KEYS.ARROW_UP p1
       = (Ret tt, p2)
    /\ inputValue p2 = lit "whoami".
Proof.
  pose (p0 := with_inputValue (fresh_page Reference.two_entries []) (lit "  whoami ")).
  pose (p1 := snd (handleKeyDown (B := Reference.builtins)
                     (C := ReferencePage.conversions) Reference.quiet KEYS.ENTER p0)).
  assert (E : handleKeyDown (B := Reference.builtins) (C := ReferencePage.conversions)
                Reference.quiet KEYS.ENTER p0 = (Ret tt, p1))
    by (vm_compute; reflexivity).
  destruct (@enter_then_up Reference.builtins ReferencePage.conversions
              Reference.quiet p0 [VStr (lit "ls"); VStr (lit "help")] eq_refl)
    as [_ H].
  destruct (H ltac:(discriminate) p1 E) as [V [_ [_ [p2 [U [W _]]]]]].
  exists p1, p2. repeat split; assumption.
Defined.

Section Bounded.

Context {B : Builtins} {C : Conversions} (h : Host).

Lemma preserves_pret {A} Q (a : A) : preserves Q (pret a).
Proof. intros p H; exact H. Qed.

Lemma preserves_pbind {A D} Q (m : P A) (f : A -> P D) :
  preserves Q m -> (forall a, preserves Q (f a)) -> preserves Q (pbind m f).
Proof.
  intros Hm Hf p H; unfold pbind. specialize (Hm p H).
  destruct (m p) as [[a|e] p']; [apply Hf; exact Hm | exact Hm].
Qed.

Lemma preserves_get_page Q : preserves Q get_page.
Proof. intros p H; exact H. Qed.

Lemma preserves_update Q f :
  (forall p, Q p -> Q (f p)) -> preserves Q (update f).
Proof. intros Hf p H; apply Hf; exact H. Qed.

Lemma bounded_lift {A} (m : M A) : preserves transcript_bounded (lift h m).
Proof.
  intros p H. unfold transcript_bounded in *.
  destruct (lift_frame h m p) as [_ [_ [_ L]]]. lia.
Qed.

Lemma bounded_limitHistoryItems p :
  (length (transcript p) <= S CONFIG.maxHistoryItems)%nat ->
  transcript_bounded (snd (limitHistoryItems p)).
Proof.
  intros H. unfold limitHistoryItems, pbind, get_page, update, pret, transcript_bounded.
  destruct (Nat.ltb_spec CONFIG.maxHistoryItems (length (transcript p))) as [L|L];
    cbn [snd transcript with_transcript]; [|exact L].
  destruct (transcript p); simpl in *; lia.
Qed.

Lemma bounded_addToHistoryDisplay c r :
  preserves transcript_bounded (addToHistoryDisplay h c r).
Proof.
  intros p H. unfold addToHistoryDisplay.
  destruct (present h SELECTORS.commandHistory); cbn [negb]; [|exact H].
  unfold pbind at 1, update.
  apply bounded_limitHistoryItems. cbn [transcript with_transcript].
  unfold transcript_bounded in H. rewrite length_app; simpl; lia.
Qed.

Lemma bounded_scrollToBottom : preserves transcript_bounded (scrollToBottom h).
Proof.
  intros p H. unfold scrollToBottom.
  destruct (present h SELECTORS.commandHistory); exact H.
Qed.

Lemma bounded_executeCommand : preserves transcript_bounded (executeCommand h).
Proof.
  unfold executeCommand.
  apply preserves_pbind; [apply preserves_get_page|]. intros p0.
  destruct (negb (truthy (VStr (trim (inputValue p0))))); [apply preserves_pret|].
  apply preserves_pbind; [apply bounded_lift|]. intros _.
  apply preserves_pbind; [apply bounded_lift|]. intros result.
  apply preserves_pbind.
  { destruct (truthy result); [apply bounded_addToHistoryDisplay | apply preserves_pret]. }
  intros _.
  apply preserves_pbind; [apply preserves_update; intros p H; exact H|]. intros _.
  apply preserves_pbind.
  { apply preserves_pbind; [apply preserves_get_page|]. intros p1. apply bounded_lift. }
  intros _. apply bounded_scrollToBottom.
Qed.

Lemma bounded_handleKeyDown key : preserves transcript_bounded (handleKeyDown h key).
Proof.
  unfold handleKeyDown.
  destruct (eqb key KEYS.ENTER); [apply bounded_executeCommand|].
  destruct (eqb key KEYS.ARROW_UP).
  { apply preserves_pbind; [apply bounded_lift|].
    intros v; apply preserves_update; intros p H; exact H. }
  destruct (eqb key KEYS.ARROW_DOWN); [|apply preserves_pret].
  apply preserves_pbind; [apply bounded_lift|].
  intros v; apply preserves_update; intros p H; exact H.
Qed.

Lemma bounded_reopenTerminal : preserves transcript_bounded (reopenTerminal h).
Proof.
  unfold reopenTerminal.
  apply preserves_pbind; [apply bounded_lift|]. intros container.
  apply preserves_pbind; [apply preserves_get_page|]. intros p0.
  destruct (container && eqb (display (containerStyle p0)) (lit "none"));
    [|apply preserves_pret].
  repeat (apply preserves_pbind; [apply bounded_lift|intros _]).
  apply preserves_pbind; [apply bounded_lift|]. intros input.
  destruct input; [apply preserves_update; intros p H; exact H | apply preserves_pret].
Qed.

Lemma bounded_closeTimer_fires : preserves transcript_bounded (closeTimer_fires h).
Proof.
  unfold closeTimer_fires.
  apply preserves_pbind; [apply preserves_get_page|]. intros p0.
  destruct (closeTimers p0); [apply preserves_pret|].
  apply preserves_pbind; [apply preserves_update; intros p H; exact H|].
  intros _; apply bounded_lift.
Qed.

End Bounded.

(** X15: the transcript stays within 50 items.  Every page operation (a
    key in the input, the reopen shortcut, closing the terminal, the close
    timer firing) leaves at most 50 items when there were at most 50,
    whether it returns or throws: an item appended past the maximum
    removes the oldest one. *)
Theorem transcript_stays_bounded {B : Builtins} {C : Conversions} (h : Host)
    (p : Page) (key : jsstring) :
  transcript_bounded p ->
  transcript_bounded (snd (handleKeyDown h key p))
  /\ transcript_bounded (snd (reopenShortcut h key p))
  /\ transcript_bounded (snd (TerminalUI_closeTerminal h p))
  /\ transcript_bounded (snd (closeTimer_fires h p)).
Proof.
  intros H. split; [apply bounded_handleKeyDown; exact H|].
  split; [|split; [apply bounded_lift; exact H | apply bounded_closeTimer_fires; exact H]].
  unfold reopenShortcut.
  destruct (eqb key KEYS.BACKTICK || eqb key KEYS.TILDE);
    [apply bounded_reopenTerminal; exact H | exact H].
Qed.

Lemma transcript_stays_bounded_witness :
  transcript_bounded
    (with_inputValue
       (fresh_page Reference.two_entries
          (repeat (createHistoryItem (C := ReferencePage.conversions) (lit "ls") VNull) 50))
       (lit "whoami"))
  /\ transcript_bounded
       (snd (handleKeyDown (B := Reference.builtins) (C := ReferencePage.conversions)
               Reference.quiet KEYS.ENTER
               (with_inputValue
                  (fresh_page Reference.two_entries
                     (repeat (createHistoryItem (C := ReferencePage.conversions)
                                (lit "ls") VNull) 50))
                  (lit "whoami")))).
Proof.
  assert (H : transcript_bounded
                (with_inputValue
                   (fresh_page Reference.two_entries
                      (repeat (createHistoryItem (C := ReferencePage.conversions)
                                 (lit "ls") VNull) 50))
                   (lit "whoami"))).
  { unfold transcript_bounded; cbn [transcript with_inputValue fresh_page].
    rewrite repeat_length. unfold CONFIG.maxHistoryItems. lia. }
  split; [exact H|].
  exact (proj1 (@transcript_stays_bounded Reference.builtins ReferencePage.conversions
                  Reference.quiet _ KEYS.ENTER H)).
Defined.

Section Clear.

Context {B : Builtins} {C : Conversions} (h : Host).

(** A call that does nothing to the page has no effect, thrown or not. *)
Lemma effect_neutral p c : apply_call p c = p -> effect h p c = p.
Proof. unfold effect; destruct (fault h c); auto. Qed.

(** The calls of a submission leave the page as it is. *)
Lemma lift_addToHistory c p l :
  trim c <> [] -> history (system p) = HArray l ->
  exists s1, lift h (addToHistory h c) p = (Ret tt, with_system p s1)
             /\ history s1 = HArray (push_bounded l (trim c))
             /\ addToHistory h c (system p) = (Ret tt, s1).
Proof.
  intros Hc Hl.
  pose proof (@addToHistory_written B h c (system p) l Hc Hl) as W.
  destruct (fault h (SetItem CONFIG.storageKey
                       (JSON_stringify (VArr (push_bounded l (trim c)))))) as [e|] eqn:F.
  - eexists; split; [|split; [|exact W]].
    + rewrite (lift_run h (addToHistory h c) p [_; _] W eq_refl).
      cbn [fold_left]. rewrite !effect_neutral by reflexivity. reflexivity.
    + reflexivity.
  - eexists; split; [|split; [|exact W]].
    + rewrite (lift_run h (addToHistory h c) p [_] W eq_refl).
      cbn [fold_left]. rewrite !effect_neutral by reflexivity. reflexivity.
    + reflexivity.
Qed.

(** What [execute] does on the clear command when the element is there
    and the host does not throw. *)
Lemma execute_clear c s :
  trim c <> [] -> execute_cmd (trim c) = lit "clear" ->
  present h SELECTORS.commandHistory = true ->
  fault h (QuerySelector SELECTORS.commandHistory) = None ->
  fault h (SetInnerHTML SELECTORS.commandHistory (lit "")) = None ->
  execute h c s
  = (Ret (CommandResult (lit "success") (VStr (lit "Terminal cleared."))),
     {| history := history s; historyIndex := historyIndex s;
        localStorage := localStorage s;
        trace := trace s ++ [QuerySelector SELECTORS.commandHistory;
                             SetInnerHTML SELECTORS.commandHistory (lit "")] |}).
Proof.
  intros Hc Hcmd Hp F1 F2.
  rewrite execute_nonempty by exact Hc.
  unfold dispatch. rewrite quit_test, Hcmd.
  change (eqb (lit "clear") (lit ":q")) with false.
  change (get_property commands (lit "clear")) with (VFun (Handler clear)).
  cbn [truthy call handler]. run. rewrite F1; run. rewrite Hp; run.
  rewrite F2; run. rewrite <- app_assoc. reflexivity.
Qed.

End Clear.

(** X16: after the clear command the transcript holds one item, its own.
    With [#commandHistory] present and a host that lets the element be
    found and emptied, Enter on an input whose command name is [clear]
    (in any case, with any arguments), on a history that is an array,
    returns and leaves exactly the item of that command, with the text
    "Terminal cleared.", scrolled to the bottom, and the input empty. *)
Theorem clear_leaves_its_own_item {B : Builtins} {C : Conversions} (h : Host)
    (p : Page) (l : list jsval) :
  history (system p) = HArray l ->
  trim (inputValue p) <> [] ->
  execute_cmd (trim (inputValue p)) = lit "clear" ->
  present h SELECTORS.commandHistory = true ->
  fault h (QuerySelector SELECTORS.commandHistory) = None ->
  fault h (SetInnerHTML SELECTORS.commandHistory (lit "")) = None ->
  exists p1,
    handleKeyDown h KEYS.ENTER p = (Ret tt, p1)
    /\ transcript p1
       = [createHistoryItem (trim (inputValue p))
            (CommandResult (lit "success") (VStr (lit "Terminal cleared.")))]
    /\ transcriptScroll p1 = Bottom
    /\ inputValue p1 = lit "".
Proof.
  intros Hl Hc Hcmd Hp F1 F2.
  change (handleKeyDown h KEYS.ENTER) with (executeCommand h).
  set (c := trim (inputValue p)) in *.
  assert (Tc : trim c = c) by apply trim_idempotent.
  destruct (@lift_addToHistory B h c p l) as [s1 [L1 [H1 A1]]];
    [rewrite Tc; exact Hc | exact Hl |].
  assert (X : execute h c s1
              = (Ret (CommandResult (lit "success") (VStr (lit "Terminal cleared."))),
                 {| history := history s1; historyIndex := historyIndex s1;
                    localStorage := localStorage s1;
                    trace := trace s1 ++ [QuerySelector SELECTORS.commandHistory;
                                          SetInnerHTML SELECTORS.commandHistory (lit "")] |}))
    by (apply execute_clear; rewrite ?Tc; assumption).
  unfold executeCommand. unfold pbind at 1, get_page. fold c.
  destruct c as [|d t] eqn:Ec; [congruence|]. rewrite <- Ec in *.
  replace (negb (truthy (VStr c))) with false by (rewrite Ec; reflexivity).
  unfold pbind at 1. rewrite L1.
  unfold pbind at 1.
  rewrite (lift_run h (execute h c) (with_system p s1) [_; _] X eq_refl).
  cbn [fold_left]. unfold effect at 2. rewrite F1. cbn [apply_call].
  unfold effect at 1. rewrite F2. cbn [apply_call].
  rewrite eqb_refl. change (eqb (lit "") (lit "")) with true. cbn [andb].
  cbn [truthy CommandResult]. unfold pbind at 1.
  unfold addToHistoryDisplay. rewrite Hp. cbn [negb].
  unfold pbind at 1, update at 1. unfold limitHistoryItems.
  unfold pbind at 1, get_page at 1.
  cbn [transcript with_transcript app length].
  change (CONFIG.maxHistoryItems <? 1)%nat with false. cbv iota.
  unfold pret at 1. unfold pbind at 1, update at 1.
  unfold pbind at 1. unfold pbind at 1, get_page.
  unfold lift. cbn [set_historyIndex system with_inputValue with_transcript
                      with_system trace].
  rewrite skipn_all. cbn [fold_left].
  unfold scrollToBottom. rewrite Hp. unfold update.
  eexists; split; [reflexivity|]. repeat split.
Qed.

Lemma clear_leaves_its_own_item_witness :
  exists p1,
    handleKeyDown (B := Reference.builtins) (C := ReferencePage.conversions)
      Reference.quiet KEYS.ENTER
      (with_inputValue
         (fresh_page Reference.two_entries
            (repeat (createHistoryItem (C := ReferencePage.conversions) (lit "ls") VNull) 7))
         (lit " CLEAR now "))
    = (Ret tt, p1)
    /\ length (transcript p1) = 1%nat
    /\ inputValue p1 = lit "".
Proof.
  destruct (@clear_leaves_its_own_item Reference.builtins ReferencePage.conversions
              Reference.quiet
              (with_inputValue
                 (fresh_page Reference.two_entries
                    (repeat (createHistoryItem (C := ReferencePage.conversions)
                               (lit "ls") VNull) 7))
                 (lit " CLEAR now "))
              [VStr (lit "ls"); VStr (lit "help")])
    as [p1 [E [T [_ V]]]];
    try (vm_compute; solve [reflexivity | discriminate]).
  exists p1. split; [exact E|]. split; [rewrite T; reflexivity | exact V].
Defined.

Section Terminal.

Context {B : Builtins} {C : Conversions} (h : Host).

Hypothesis quiet : never_throws h.
Hypothesis container : present h SELECTORS.terminalContainer = true.

Lemma host_call_quiet c s :
  host_call h c s
  = (Ret tt, {| history := history s; historyIndex := historyIndex s;
                localStorage := localStorage s; trace := trace s ++ [c] |}).
Proof. unfold host_call; run. rewrite quiet. reflexivity. Qed.

Lemma lift_host_call c p :
  lift h (host_call h c) p
  = (Ret tt,
     apply_call
       (with_system p
          {| history := history (system p); historyIndex := historyIndex (system p);
             localStorage := localStorage (system p);
             trace := trace (system p) ++ [c] |}) c).
Proof.
  rewrite (lift_run h (host_call h c) p [c] (host_call_quiet c (system p)) eq_refl).
  cbn [fold_left]. unfold effect. rewrite quiet. reflexivity.
Qed.

Lemma lift_Utils_query sel p :
  lift h (Utils_query h sel) p
  = (Ret (present h sel),
     with_system p
       {| history := history (system p); historyIndex := historyIndex (system p);
          localStorage := localStorage (system p);
          trace := trace (system p) ++ [QuerySelector sel] |}).
Proof.
  assert (E : Utils_query h sel (system p)
              = (Ret (present h sel),
                 {| history := history (system p);
                    historyIndex := historyIndex (system p);
                    localStorage := localStorage (system p);
                    trace := trace (system p) ++ [QuerySelector sel] |})).
  { unfold Utils_query; run. rewrite quiet. reflexivity. }
  rewrite (lift_run h (Utils_query h sel) p [QuerySelector sel] E eq_refl).
  cbn [fold_left]. unfold effect. rewrite quiet. reflexivity.
Qed.

(** Closing writes the two styles of the animation and sets one timer. *)
Lemma closeTerminal_page p :
  fst (TerminalUI_closeTerminal h p) = Ret tt
  /\ containerStyle (snd (TerminalUI_closeTerminal h p))
     = {| display := display (containerStyle p);
          transform := lit "translateY(100%)";
          opacity := lit "0" |}
  /\ closeTimers (snd (TerminalUI_closeTerminal h p)) = S (closeTimers p)
  /\ inputFocused (snd (TerminalUI_closeTerminal h p)) = inputFocused p.
Proof.
  unfold TerminalUI_closeTerminal.
  assert (E : closeTerminal h (system p)
              = (Ret tt,
                 {| history := history (system p);
                    historyIndex := historyIndex (system p);
                    localStorage := localStorage (system p);
                    trace := trace (system p) ++ closeTerminal_calls |})).
  { unfold closeTerminal, closeTerminal_calls; run. rewrite !quiet; run.
    rewrite container; run. rewrite <- !app_assoc. reflexivity. }
  rewrite (lift_run h (closeTerminal h) p closeTerminal_calls E eq_refl).
  unfold closeTerminal_calls. cbn [fold_left]. unfold effect. rewrite !quiet.
  cbn [apply_call]. rewrite !eqb_refl.
  repeat split.
Qed.

(** When the timer fires, the container is hidden. *)
Lemma closeTimer_page p n :
  closeTimers p = S n ->
  fst (closeTimer_fires h p) = Ret tt
  /\ containerStyle (snd (closeTimer_fires h p))
     = {| display := lit "none";
          transform := transform (containerStyle p);
          opacity := opacity (containerStyle p) |}
  /\ closeTimers (snd (closeTimer_fires h p)) = n
  /\ inputFocused (snd (closeTimer_fires h p)) = inputFocused p.
Proof.
  intros T. unfold closeTimer_fires, pbind, get_page, update. rewrite T.
  rewrite lift_host_call.
  cbn [apply_call]. rewrite eqb_refl. repeat split.
Qed.

(** Reopening acts on a hidden container only. *)
Lemma reopenTerminal_page p :
  fst (reopenTerminal h p) = Ret tt
  /\ containerStyle (snd (reopenTerminal h p))
     = (if eqb (display (containerStyle p)) (lit "none")
        then {| display := lit "block"; transform := lit "translateY(0)";
                opacity := lit "1" |}
        else containerStyle p)
  /\ closeTimers (snd (reopenTerminal h p)) = closeTimers p
  /\ inputFocused (snd (reopenTerminal h p))
     = (if eqb (display (containerStyle p)) (lit "none")
        then present h SELECTORS_commandInput || inputFocused p
        else inputFocused p).
Proof.
  unfold reopenTerminal, pbind, get_page, update, pret.
  rewrite lift_Utils_query; cbv beta iota.
  rewrite container. cbn [andb containerStyle with_system].
  destruct (eqb (display (containerStyle p)) (lit "none")); [|repeat split].
  repeat (rewrite lift_host_call; cbv beta iota).
  rewrite lift_Utils_query; cbv beta iota.
  cbn [apply_call]. rewrite !eqb_refl.
  destruct (present h SELECTORS_commandInput); repeat split.
Qed.

End Terminal.

(** X17: closing and reopening the terminal.  Under a host that does not
    throw and has the container, from a page whose container is not
    hidden: after [closeTerminal] the reopen shortcut does nothing to the
    styles until the timer has fired (the container is not yet hidden);
    when the timer fires the container is hidden; the shortcut (either
    key) then shows it again with the styles of the open state, focuses
    the input when there is one, and no timer is left over. *)
Theorem close_then_reopen (h : Host) (p : Page) :
  never_throws h ->
  present h SELECTORS.terminalContainer = true ->
  display (containerStyle p) <> lit "none" ->
  containerStyle (snd (reopenShortcut h KEYS.BACKTICK
                         (snd (TerminalUI_closeTerminal h p))))
  = {| display := display (containerStyle p);
       transform := lit "translateY(100%)";
       opacity := lit "0" |}
  /\ display (containerStyle (snd (closeTimer_fires h
                                     (snd (TerminalUI_closeTerminal h p)))))
     = lit "none"
  /\ containerStyle
       (snd (reopenShortcut h KEYS.TILDE
               (snd (closeTimer_fires h (snd (TerminalUI_closeTerminal h p))))))
     = {| display := lit "block"; transform := lit "translateY(0)"; opacity := lit "1" |}
  /\ inputFocused
       (snd (reopenShortcut h KEYS.TILDE
               (snd (closeTimer_fires h (snd (TerminalUI_closeTerminal h p))))))
     = present h SELECTORS_commandInput || inputFocused p
  /\ closeTimers
       (snd (reopenShortcut h KEYS.TILDE
               (snd (closeTimer_fires h (snd (TerminalUI_closeTerminal h p))))))
     = closeTimers p.
Proof.
  intros Q Hc Hd.
  destruct (closeTerminal_page Q Hc p) as [_ [S1 [T1 F1]]].
  set (p1 := snd (TerminalUI_closeTerminal h p)) in *.
  destruct (closeTimer_page Q p1 T1) as [_ [S2 [T2 F2]]].
  set (p2 := snd (closeTimer_fires h p1)) in *.
  change (reopenShortcut h KEYS.BACKTICK) with (reopenTerminal h).
  change (reopenShortcut h KEYS.TILDE) with (reopenTerminal h).
  destruct (reopenTerminal_page Q Hc p1) as [_ [R1 _]].
  destruct (reopenTerminal_page Q Hc p2) as [_ [R2 [R3 R4]]].
  assert (N1 : eqb (display (containerStyle p1)) (lit "none") = false).
  { rewrite S1; cbn [display]. apply eqb_neq; exact Hd. }
  assert (N2 : eqb (display (containerStyle p2)) (lit "none") = true).
  { rewrite S2; cbn [display]. apply eqb_refl. }
  rewrite N1 in R1. rewrite N2 in R2, R4.
  split; [rewrite R1; exact S1|].
  split; [rewrite S2; reflexivity|].
  split; [exact R2|].
  split; [rewrite R4, F2, F1; reflexivity|].
  rewrite R3, T2. reflexivity.
Qed.

Lemma close_then_reopen_witness :
  containerStyle
    (snd (reopenShortcut Reference.quiet KEYS.TILDE
            (snd (closeTimer_fires Reference.quiet
                    (snd (TerminalUI_closeTerminal Reference.quiet
                            (fresh_page (initial None) [])))))))
  = {| display := lit "block"; transform := lit "translateY(0)"; opacity := lit "1" |}.
Proof.
  apply (@close_then_reopen Reference.quiet (fresh_page (initial None) []));
    [intros c; reflexivity | reflexivity | discriminate].
Defined.

Section Arguments.

Context {B : Builtins} (h : Host).

(** No handler but [cat] looks at its argument. *)
Lemma handler_ignores_args c x y :
  c <> cat -> handler h c x = handler h c y.
Proof. destruct c; intros H; try reflexivity. congruence. Qed.

End Arguments.

(** X18: only [cat] takes arguments.  For a command that is a key of the
    registry other than [cat], whatever follows the command name is
    ignored: two inputs with the same lower-cased command name give the
    same outcome and the same state, whatever their remaining tokens. *)
Theorem arguments_ignored {B : Builtins} (h : Host)
    (a b : jsstring) (c : command) (s : State) :
  trim a <> [] -> trim b <> [] ->
  assoc (execute_cmd (trim a)) commands = Some (VFun (Handler c)) ->
  c <> cat ->
  execute_cmd (trim b) = execute_cmd (trim a) ->
  execute h a s = execute h b s.
Proof.
  intros Ha Hb Hc Hn Hcmd.
  rewrite !execute_nonempty by assumption.
  unfold dispatch. rewrite !quit_test, Hcmd.
  destruct (eqb (execute_cmd (trim a)) (lit ":q")); [reflexivity|].
  rewrite (get_property_own _ _ Hc). cbn [truthy call].
  rewrite (handler_ignores_args h (Some (execute_args (trim a)))
             (Some (execute_args (trim b))) Hn).
  reflexivity.
Qed.

Lemma arguments_ignored_witness :
  execute (B := Reference.builtins) Reference.quiet (lit "help me please") (initial None)
  = execute (B := Reference.builtins) Reference.quiet (lit "HELP") (initial None).
Proof.
  apply (@arguments_ignored Reference.builtins Reference.quiet
           (lit "help me please") (lit "HELP") help (initial None));
    vm_compute; solve [reflexivity | discriminate].
Defined.

(* ================================================================== *)
(** * The animation toggle *)
(* ================================================================== *)

(** A run of the listener flips the class, whatever the storage does. *)
Lemma click_listener_flips (mh : Motion.MotionHost) (m : Motion.MotionState) :
  Motion.reducedMotion (snd (Motion.click_listener mh m))
  = negb (Motion.reducedMotion m)
  /\ Motion.listeners (snd (Motion.click_listener mh m)) = Motion.listeners m.
Proof.
  unfold Motion.click_listener, Motion.initSiteCanvas.
  destruct (Motion.reducedMotion m), (Motion.setItemFault mh),
    (Motion.canvasReady mh); split; reflexivity.
Qed.

Lemma run_listeners_parity (mh : Motion.MotionHost) (n : nat) :
  forall m,
    Motion.reducedMotion (snd (Motion.run_listeners mh n m))
    = xorb (Nat.odd n) (Motion.reducedMotion m)
    /\ Motion.listeners (snd (Motion.run_listeners mh n m)) = Motion.listeners m.
Proof.
  induction n as [|k IH]; intros m; [split; reflexivity|].
  cbn [Motion.run_listeners].
  destruct (IH (snd (Motion.click_listener mh m))) as [E L].
  destruct (Motion.run_listeners mh k (snd (Motion.click_listener mh m)))
    as [thrown m'].
  cbn [snd] in *. rewrite E, L.
  destruct (click_listener_flips mh m) as [F G]. rewrite F, G.
  rewrite Nat.odd_succ, <- Nat.negb_odd.
  split; [|reflexivity].
  destruct (Nat.odd k), (Motion.reducedMotion m); reflexivity.
Qed.

(** X19: the animation choice is kept and survives a reload.  With the
    toggle present, a storage that does not throw and the one click
    listener that [initAnimationToggle] adds when the page starts, a click
    on the toggle flips the reduced-motion class, leaves the toggle marked
    exactly when motion is reduced, and stores ['false'] or ['true']
    accordingly; a second click undoes the first; and
    [initAnimationToggle] on a reload with the stored value sets reduced
    motion exactly when the choice, or the system preference, asks for
    it, and adds one listener again.  Each further call of
    [initAnimationToggle] adds a listener more, and a click runs them
    all: it flips the class when their number is odd and leaves it when
    it is even. *)
Theorem animation_choice_persists (mh : Motion.MotionHost) (m : Motion.MotionState) :
  Motion.togglePresent mh = true ->
  Motion.getItemFault mh = None ->
  Motion.setItemFault mh = None ->
  Motion.listeners m = 1%nat ->
  (fst (Motion.toggle_click mh m) = []
   /\ Motion.reducedMotion (snd (Motion.toggle_click mh m)) = negb (Motion.reducedMotion m)
   /\ Motion.toggleActive (snd (Motion.toggle_click mh m))
      = Motion.reducedMotion (snd (Motion.toggle_click mh m))
   /\ Motion.stored (snd (Motion.toggle_click mh m))
      = Some (if Motion.reducedMotion (snd (Motion.toggle_click mh m))
              then lit "false" else lit "true")
   /\ Motion.listeners (snd (Motion.toggle_click mh m)) = 1%nat
   /\ Motion.reducedMotion
        (snd (Motion.toggle_click mh (snd (Motion.toggle_click mh m))))
      = Motion.reducedMotion m
   /\ forall active,
        Motion.reducedMotion
          (snd (Motion.initAnimationToggle mh
                  (Motion.loaded (Motion.stored (snd (Motion.toggle_click mh m))) active)))
        = Motion.prefersReducedMotion mh
          || Motion.reducedMotion (snd (Motion.toggle_click mh m))
        /\ Motion.listeners
             (snd (Motion.initAnimationToggle mh
                     (Motion.loaded (Motion.stored (snd (Motion.toggle_click mh m)))
                        active)))
           = 1%nat)
  /\ (forall m',
        Motion.reducedMotion (snd (Motion.toggle_click mh m'))
        = xorb (Nat.odd (Motion.listeners m')) (Motion.reducedMotion m')
        /\ Motion.listeners (snd (Motion.initAnimationToggle mh m'))
           = S (Motion.listeners m')).
Proof.
  intros Ht Hg Hs Hl. split.
  - unfold Motion.toggle_click.
    assert (L1 : forall m0, Motion.listeners m0 = 1%nat ->
                 Motion.listeners (snd (Motion.run_listeners mh 1 m0)) = 1%nat).
    { intros m0 H0. rewrite (proj2 (run_listeners_parity mh 1 m0)). exact H0. }
    rewrite Hl. rewrite (L1 m Hl).
    unfold Motion.run_listeners, Motion.click_listener, Motion.initAnimationToggle,
      Motion.initSiteCanvas, Motion.loaded.
    rewrite Hs, Ht, Hg. cbn [negb].
    destruct (Motion.reducedMotion m) eqn:R; cbn [negb];
      destruct (Motion.canvasReady mh); cbn [fst snd Motion.reducedMotion
        Motion.toggleActive Motion.stored Motion.listeners negb];
      rewrite ?Hs; cbn [fst snd Motion.reducedMotion Motion.toggleActive
        Motion.stored Motion.listeners negb];
      (split; [reflexivity|]); (split; [reflexivity|]); (split; [reflexivity|]);
      (split; [reflexivity|]); (split; [reflexivity|]); (split; [reflexivity|]);
      intros active; cbn [Motion.stored Motion.reducedMotion Motion.listeners snd];
      destruct (Motion.prefersReducedMotion mh); split; reflexivity.
  - intros m'. split.
    + apply run_listeners_parity.
    + unfold Motion.initAnimationToggle. rewrite Ht, Hg. reflexivity.
Qed.

Lemma animation_choice_persists_witness :
  Motion.reducedMotion
    (snd (Motion.initAnimationToggle Motion.plain
            (Motion.loaded
               (Motion.stored
                  (snd (Motion.toggle_click Motion.plain
                          (snd (Motion.initAnimationToggle Motion.plain
                                  (Motion.loaded None false))))))
               false)))
  = true.
Proof.
  destruct (@animation_choice_persists Motion.plain
              (snd (Motion.initAnimationToggle Motion.plain (Motion.loaded None false)))
              eq_refl eq_refl eq_refl eq_refl) as [[_ [_ [_ [_ [_ [_ H]]]]]] _].
  rewrite (proj1 (H false)). reflexivity.
Defined.
